(** * ActivationBuffer: a buffer of model activations, its refill and sampling

    Shallow embedding of [buffer.py] (class [ActivationBuffer]) and the
    properties of its refill / sampling controller.

    Conventions of the embedding.
    - Integers of the configuration ([n_ctxs], [ctx_len], [in_batch_size],
      [out_batch_size]) are [Z]; Python's [//] on them is [Z.div] (floor).
    - A 2-D tensor is a [Tensor]: its number of columns and the list of its
      rows; the rows are opaque values of a type [V].  A tapped tensor of
      shape [B, S, F] is a [Tensor3]: its width [F] and its vectors.
      [empty] and [cat] check the widths as torch does and raise
      RuntimeError.
    - The comparison of the unread count, an int64 tensor, with the Python
      int [n_ctxs * ctx_len // 2] converts the latter to 64 bits and raises
      OverflowError when it does not fit.
    - The text generator [data] is the list of the items it has yet to yield.
    - The language model is a function [trace] from a batch of texts and a
      maximal length to the tapped values and the attention mask.
    - [t.randperm] is an oracle [randperm : nat -> list nat]; the properties
      that need it assume it returns a permutation of [0 .. n-1].
    - The object is mutated in place and exceptions leave it as it is at
      the raise: computations are functions from a buffer to an [outcome]
      that carries the buffer in both the normal and the exceptional case.
    - The [while] loops of [refresh] are bounded by a fuel argument.
    - [io] ranges over the three documented modes; the device is left out. *)

From Stdlib Require Import String.
From Stdlib Require Import List ZArith Lia Bool Permutation Arith.
Import ListNotations.

Set Implicit Arguments.
Set Warnings "-register-all".

(** ** Exceptions *)

Inductive exn : Type :=
| ValueError (msg : string)
| StopIteration (msg : string)
| IndexError
| TypeError
| RuntimeError
| OverflowError.

(** ** Tensor primitives *)

Module Torch.

Section Rows.
Context {A : Type}.

(** [l[mask]] on the first dimension, the lengths being equal. *)
Fixpoint select (l : list A) (mask : list bool) : list A :=
match l, mask with
| x :: l', b :: mask' =>
    if b then x :: select l' mask' else select l' mask'
| _, _ => []
end.

(** [l[idxs]] for a list of integer positions; [None] when a position is
  out of range (torch raises IndexError). *)
Fixpoint take (l : list A) (idxs : list nat) : option (list A) :=
match idxs with
| [] => Some []
| i :: idxs' =>
    match nth_error l i, take l idxs' with
    | Some v, Some vs => Some (v :: vs)
    | _, _ => None
    end
end.

(** [l[:k]] with Python's reading of a negative bound. *)
Definition py_prefix (k : Z) (l : list A) : list A :=
if (0 <=? k)%Z then firstn (Z.to_nat k) l
else firstn (Z.to_nat (Z.of_nat (length l) + k)) l.

(** [x[mask]] where [x] has shape [B, S, F] and [mask] has shape [B, S]:
  the rows at the true positions, in row-major order; [None] when the
  shapes differ. *)
Fixpoint select2 (x : list (list A)) (mask : list (list bool))
: option (list A) :=
match x, mask with
| [], [] => Some []
| r :: x', m :: mask' =>
    if Nat.eqb (length m) (length r)
    then option_map (app (select r m)) (select2 x' mask')
    else None
| _, _ => None
end.

End Rows.

(** [~read] *)
Definition invert (read : list bool) : list bool := map negb read.

(** [mask.sum()] *)
Definition sum (mask : list bool) : nat := length (filter (fun b => b) mask).

(** [mask.nonzero()], as the list of the positions (shape [n, 1]). *)
Fixpoint nonzero_from (i : nat) (mask : list bool) : list nat :=
match mask with
| [] => []
| b :: mask' =>
    if b then i :: nonzero_from (S i) mask' else nonzero_from (S i) mask'
end.

Definition nonzero (mask : list bool) : list nat := nonzero_from 0 mask.

(** The result of [.squeeze()] on a tensor of shape [n, 1]: every dimension
  of size one is dropped, so one position gives a 0-dimensional tensor. *)
Inductive Index : Type :=
| Scalar (i : nat)
| Vector (l : list nat).

Definition squeeze (l : list nat) : Index :=
match l with
| [i] => Scalar i
| _ => Vector l
end.

(** [len(u)]: a 0-dimensional tensor has no length (TypeError). *)
Definition len_index (u : Index) : option nat :=
match u with
| Scalar _ => None
| Vector l => Some (length l)
end.

(** [u[p]] for a tensor of positions [p]. *)
Definition index (u : Index) (p : list nat) : option (list nat) :=
match u with
| Scalar _ => None
| Vector l => take l p
end.

(** [read[i] = True] *)
Fixpoint set_true (i : nat) (read : list bool) : list bool :=
match read, i with
| [], _ => []
| _ :: read', O => true :: read'
| b :: read', S i' => b :: set_true i' read'
end.

(** [read[idxs] = True].  The positions come from [nonzero] of the same
  collection, hence are in range. *)
Definition index_put (read : list bool) (idxs : list nat) : list bool :=
fold_left (fun r i => set_true i r) idxs read.

(** [t.zeros(n, dtype=t.bool)] *)
Definition zeros (n : nat) : list bool := repeat false n.

(** [attention_mask != 0] *)
Definition ne0 (mask : list (list Z)) : list (list bool) :=
map (map (fun z => negb (z =? 0)%Z)) mask.

(** A Python int as the 64-bit scalar a tensor of dtype int64 is compared
  with; [None] when it does not fit (torch raises OverflowError). *)
Definition int64 (z : Z) : option Z :=
if ((- 2 ^ 63 <=? z) && (z <? 2 ^ 63))%Z then Some z else None.

Section Tensor.
Variable V : Type.

Record Tensor : Type := mkTensor { feats : Z; rows : list V }.

(** [t.empty(0, f)]; [None] for a negative width (torch raises
  RuntimeError). *)
Definition empty (f : Z) : option Tensor :=
if (0 <=? f)%Z then Some (mkTensor f []) else None.

(** [len(x)] *)
Definition len (x : Tensor) : nat := length (rows x).

(** [x[mask]], [mask] a boolean tensor: IndexError unless it is as long
  as [x]. *)
Definition mask_index (x : Tensor) (mask : list bool) : option Tensor :=
if Nat.eqb (length mask) (len x)
then Some (mkTensor (feats x) (select (rows x) mask))
else None.

(** [x[idxs]], [idxs] a tensor of positions. *)
Definition gather (x : Tensor) (idxs : list nat) : option Tensor :=
option_map (mkTensor (feats x)) (take (rows x) idxs).

(** [x] with the rows [new] behind its own. *)
Definition append (x : Tensor) (new : list V) : Tensor :=
mkTensor (feats x) (rows x ++ new).

(** [t.cat([x, new], dim=0)]; [None] when the widths differ (torch raises
  RuntimeError). *)
Definition cat (x new : Tensor) : option Tensor :=
if (feats x =? feats new)%Z then Some (append x (rows new)) else None.

(** A tensor of shape [B, S, F]: the width [F] and, for each of the [B]
  sequences, its vectors. *)
Record Tensor3 : Type := mkTensor3 { feats3 : Z; cells : list (list V) }.

(** [x[mask]] where [x] has shape [B, S, F] and [mask] has shape [B, S]: a
  tensor of shape [n, F]; IndexError when the shapes differ. *)
Definition mask_index2 (x : Tensor3) (mask : list (list bool))
: option Tensor :=
option_map (mkTensor (feats3 x)) (select2 (cells x) mask).

(** A tapped value: a tensor of shape [B, S, F], or a tuple of tapped
  values. *)
Inductive Hidden : Type :=
| HTensor (x : Tensor3)
| HTuple (items : list Hidden).

(** [while type(h.shape) == tuple: h = h[0]]; [None] on an empty tuple. *)
Fixpoint unwrap (h : Hidden) : option Tensor3 :=
match h with
| HTensor x => Some x
| HTuple [] => None
| HTuple (h0 :: _) => unwrap h0
end.

End Tensor.

End Torch.

Import Torch.

(** ** The buffer *)

Inductive IO : Type := io_in | io_out | io_in_to_out.

(** What [submodule.in_features] and [submodule.out_features] give; [None]
    when reading the attribute raises. *)
Record Submodule : Type := mkSubmodule {
  in_features : option Z;
  out_features : option Z
}.

(** A width is either the one supplied or, none being supplied, the one
    read from the submodule. *)
Definition supplied (given attr : option Z) (f : Z) : Prop :=
  given = Some f \/ (given = None /\ attr = Some f).

Section Buffer.
Variables Text V : Type.

(** What one traced forward pass makes available. *)
Record Traced : Type := mkTraced {
  submodule_input : Hidden V;
  submodule_output : Hidden V;
  attention_mask : list (list Z)
}.

(** [model.trace(texts, truncation=True, max_length=ctx_len)] *)
Variable trace : list Text -> Z -> Traced.

(** The fields of the object.  A single-tap buffer has no
    [activations_in] and [activations_out] and a dual-tap one no
    [activations]; the absent ones are kept empty. *)
Record ActivationBuffer : Type := mkBuffer {
  activations : Tensor V;
  activations_in : Tensor V;
  activations_out : Tensor V;
  read : list bool;
  data : list Text;
  io : IO;
  n_ctxs : Z;
  ctx_len : Z;
  in_batch_size : Z;
  out_batch_size : Z
}.

Definition set_activations (x : Tensor V) (s : ActivationBuffer) :=
  mkBuffer x (activations_in s) (activations_out s) (read s) (data s)
    (io s) (n_ctxs s) (ctx_len s) (in_batch_size s) (out_batch_size s).

Definition set_activations_in (x : Tensor V) (s : ActivationBuffer) :=
  mkBuffer (activations s) x (activations_out s) (read s) (data s)
    (io s) (n_ctxs s) (ctx_len s) (in_batch_size s) (out_batch_size s).

Definition set_activations_out (x : Tensor V) (s : ActivationBuffer) :=
  mkBuffer (activations s) (activations_in s) x (read s) (data s)
    (io s) (n_ctxs s) (ctx_len s) (in_batch_size s) (out_batch_size s).

Definition set_read (r : list bool) (s : ActivationBuffer) :=
  mkBuffer (activations s) (activations_in s) (activations_out s) r (data s)
    (io s) (n_ctxs s) (ctx_len s) (in_batch_size s) (out_batch_size s).

Definition set_data (d : list Text) (s : ActivationBuffer) :=
  mkBuffer (activations s) (activations_in s) (activations_out s) (read s) d
    (io s) (n_ctxs s) (ctx_len s) (in_batch_size s) (out_batch_size s).

(** *** Computations on the object *)

Inductive outcome (A : Type) : Type :=
| Ok (a : A) (s : ActivationBuffer)
| Raise (e : exn) (s : ActivationBuffer)
| OutOfFuel.

Arguments Raise {A} e s.
Arguments OutOfFuel {A}.

Definition M (A : Type) : Type := ActivationBuffer -> outcome A.

Definition ret {A} (a : A) : M A := fun s => Ok a s.

Definition bind {A B} (c : M A) (k : A -> M B) : M B :=
  fun s =>
    match c s with
    | Ok a s' => k a s'
    | Raise e s' => Raise e s'
    | OutOfFuel => OutOfFuel
    end.

Definition get : M ActivationBuffer := fun s => Ok s s.

Definition modify (f : ActivationBuffer -> ActivationBuffer) : M unit :=
  fun s => Ok tt (f s).

Definition lift {A} (e : exn) (o : option A) : M A :=
  fun s => match o with Some a => Ok a s | None => Raise e s end.

Notation "x <- c ;; k" := (bind c (fun x => k))
  (at level 61, c at next level, right associativity).
Notation "c ;;; k" := (bind c (fun _ => k))
  (at level 61, right associativity).

(** [while cond: body], at most [fuel] iterations. *)
Fixpoint while (cond : ActivationBuffer -> bool) (body : M unit)
    (fuel : nat) : M unit :=
  fun s =>
    if cond s then
      match fuel with
      | O => OutOfFuel
      | S fuel' => (body ;;; while cond body fuel') s
      end
    else Ok tt s.

(** *** [__init__] *)

(** [if feats is None: try: feats = attr  except: raise ValueError(msg)] *)
Definition infer (feats attr : option Z) (msg : string) : exn + Z :=
  match feats with
  | Some f => inr f
  | None =>
      match attr with
      | Some f => inr f
      | None => inl (ValueError msg)
      end
  end.

Definition in_msg : string :=
  "in_feats cannot be inferred and must be specified directly"%string.
Definition out_msg : string :=
  "out_feats cannot be inferred and must be specified directly"%string.

Definition absent : Tensor V := mkTensor 0 [].

(** [t.empty(0, feats)]: RuntimeError for a negative width. *)
Definition allocate (feats : Z) : exn + Tensor V :=
  match empty V feats with
  | Some x => inr x
  | None => inl RuntimeError
  end.

Definition __init__ (d : list Text) (submodule : Submodule)
    (in_feats out_feats : option Z) (io : IO)
    (n_ctxs ctx_len in_batch_size out_batch_size : Z)
  : exn + ActivationBuffer :=
  let mk a ai ao :=
    mkBuffer a ai ao (zeros 0) d io n_ctxs ctx_len
      in_batch_size out_batch_size in
  match io with
  | io_in =>
      match infer in_feats (in_features submodule) in_msg with
      | inl e => inl e
      | inr fi =>
          match allocate fi with
          | inl e => inl e
          | inr a => inr (mk a absent absent)
          end
      end
  | io_out =>
      match infer out_feats (out_features submodule) out_msg with
      | inl e => inl e
      | inr fo =>
          match allocate fo with
          | inl e => inl e
          | inr a => inr (mk a absent absent)
          end
      end
  | io_in_to_out =>
      match infer in_feats (in_features submodule) in_msg with
      | inl e => inl e
      | inr fi =>
          match infer out_feats (out_features submodule) out_msg with
          | inl e => inl e
          | inr fo =>
              match allocate fi with
              | inl e => inl e
              | inr ai =>
                  match allocate fo with
                  | inl e => inl e
                  | inr ao => inr (mk absent ai ao)
                  end
              end
          end
      end
  end.

(** *** [text_batch] *)

(** [[next(data) for _ in range(n)]]: the items and what is left of the
    generator; [None] when the generator ends first, and it is then
    empty. *)
Fixpoint pull (n : nat) (d : list Text) : option (list Text) * list Text :=
  match n with
  | O => (Some [], d)
  | S n' =>
      match d with
      | [] => (None, [])
      | x :: d' =>
          let (r, d'') := pull n' d' in (option_map (cons x) r, d'')
      end
  end.

(** [StopIteration("End of data stream reached")] *)
Definition end_of_stream : exn :=
  StopIteration "End of data stream reached"%string.

Definition text_batch (batch_size : option Z) : M (list Text) :=
  fun s =>
    let batch_size :=
      match batch_size with
      | None => in_batch_size s
      | Some b => b
      end in
    match pull (Z.to_nat batch_size) (data s) with
    | (Some texts, d) => Ok texts (set_data d s)
    | (None, d) => Raise end_of_stream (set_data d s)
    end.

(** *** [tokenized_batch] *)

(** [tokenizer texts max_length] stands for
    [self.model.tokenizer(texts, return_tensors='pt', max_length=max_length,
    padding=True, truncation=True)]. *)
Definition tokenized_batch {Tokens : Type}
    (tokenizer : list Text -> Z -> Tokens) (batch_size : option Z)
  : M Tokens :=
  texts <- text_batch batch_size ;;
  s <- get ;;
  ret (tokenizer texts (ctx_len s)).

(** *** [_refresh_std] *)

Definition target (s : ActivationBuffer) : Z := (n_ctxs s * ctx_len s)%Z.

(** The body of the loop. *)
Definition refresh_std_body : M unit :=
  texts <- text_batch None ;;
  s <- get ;;
  let tracer := trace texts (ctx_len s) in
  let hidden_states :=
    match io s with
    | io_in => submodule_input tracer
    | _ => submodule_output tracer
    end in
  hidden_states <- lift IndexError (unwrap hidden_states) ;;
  hidden_states <-
    lift IndexError
      (mask_index2 hidden_states (ne0 (attention_mask tracer))) ;;
  a <- lift RuntimeError (cat (activations s) hidden_states) ;;
  modify (set_activations a) ;;;
  modify (fun s => set_read (zeros (len (activations s))) s).

(** [while len(self.activations) < self.n_ctxs * self.ctx_len] *)
Definition std_short (s : ActivationBuffer) : bool :=
  (Z.of_nat (len (activations s)) <? target s)%Z.

Definition _refresh_std (fuel : nat) : M unit :=
  s <- get ;;
  a <- lift IndexError (mask_index (activations s) (invert (read s))) ;;
  modify (set_activations a) ;;;
  while std_short refresh_std_body fuel.

(** *** [_refresh_in_to_out] *)

Definition refresh_in_to_out_body : M unit :=
  texts <- text_batch None ;;
  s <- get ;;
  let tracer := trace texts (ctx_len s) in
  hidden_states_in <- lift IndexError (unwrap (submodule_input tracer)) ;;
  hidden_states_out <- lift IndexError (unwrap (submodule_output tracer)) ;;
  hidden_states_in <-
    lift IndexError
      (mask_index2 hidden_states_in (ne0 (attention_mask tracer))) ;;
  hidden_states_out <-
    lift IndexError
      (mask_index2 hidden_states_out (ne0 (attention_mask tracer))) ;;
  a <- lift RuntimeError (cat (activations_in s) hidden_states_in) ;;
  modify (set_activations_in a) ;;;
  a <- lift RuntimeError (cat (activations_out s) hidden_states_out) ;;
  modify (set_activations_out a) ;;;
  modify (fun s => set_read (zeros (len (activations_in s))) s).

(** [while len(self.activations_in) < self.n_ctxs * self.ctx_len] *)
Definition in_to_out_short (s : ActivationBuffer) : bool :=
  (Z.of_nat (len (activations_in s)) <? target s)%Z.

Definition _refresh_in_to_out (fuel : nat) : M unit :=
  s <- get ;;
  a <- lift IndexError (mask_index (activations_in s) (invert (read s))) ;;
  modify (set_activations_in a) ;;;
  s <- get ;;
  a <- lift IndexError (mask_index (activations_out s) (invert (read s))) ;;
  modify (set_activations_out a) ;;;
  while in_to_out_short refresh_in_to_out_body fuel.

(** *** [refresh] *)

Definition refresh (fuel : nat) : M unit :=
  s <- get ;;
  match io s with
  | io_in | io_out => _refresh_std fuel
  | io_in_to_out => _refresh_in_to_out fuel
  end.

(** *** [__next__] *)

Inductive Batch : Type :=
| Single (x : Tensor V)
| Pair (x_in x_out : Tensor V).

(** The number of vectors not yet read, [(~read).sum()]. *)
Definition unread (s : ActivationBuffer) : nat := sum (invert (read s)).

Definition threshold (s : ActivationBuffer) : Z :=
  (n_ctxs s * ctx_len s / 2)%Z.

(** [if (~self.read).sum() < self.n_ctxs * self.ctx_len // 2:
       self.refresh()] *)
Definition refill_check (fuel : nat) : M unit :=
  s <- get ;;
  bound <- lift OverflowError (int64 (threshold s)) ;;
  if (Z.of_nat (unread s) <? bound)%Z then refresh fuel else ret tt.

(** The positions drawn: [unreads[t.randperm(len(unreads))[:out_batch_size]]]
    with [unreads = (~read).nonzero().squeeze()]. *)
Definition draw (randperm : nat -> list nat) : M (list nat) :=
  s <- get ;;
  let unreads := squeeze (nonzero (invert (read s))) in
  n <- lift TypeError (len_index unreads) ;;
  lift IndexError
    (index unreads (py_prefix (out_batch_size s) (randperm n))).

Definition __next__ (fuel : nat) (randperm : nat -> list nat) : M Batch :=
  refill_check fuel ;;;
  idxs <- draw randperm ;;
  modify (fun s => set_read (index_put (read s) idxs) s) ;;;
  s <- get ;;
  match io s with
  | io_in | io_out =>
      x <- lift IndexError (gather (activations s) idxs) ;;
      ret (Single x)
  | io_in_to_out =>
      x_in <- lift IndexError (gather (activations_in s) idxs) ;;
      x_out <- lift IndexError (gather (activations_out s) idxs) ;;
      ret (Pair x_in x_out)
  end.

(** *** States and runs *)

(** The buffer an outcome leaves behind, when there is one. *)
Definition state_of {A} (o : outcome A) : option ActivationBuffer :=
  match o with
  | Ok _ s => Some s
  | Raise _ s => Some s
  | OutOfFuel => None
  end.


(** The flags are as long as the buffer (the buffers, in dual-tap mode). *)
Definition consistent (s : ActivationBuffer) : Prop :=
  match io s with
  | io_in | io_out => length (read s) = len (activations s)
  | io_in_to_out =>
      length (read s) = len (activations_in s) /\
      length (read s) = len (activations_out s)
  end.

(** The buffer the sampler reads: [activations], or [activations_in] in
    dual-tap mode (where [activations_out] goes along with it). *)
Definition buffer (s : ActivationBuffer) : Tensor V :=
  match io s with
  | io_in | io_out => activations s
  | io_in_to_out => activations_in s
  end.

(** [s'] has the configuration of [s]. *)
Definition same_config (s s' : ActivationBuffer) : Prop :=
  io s' = io s /\ n_ctxs s' = n_ctxs s /\ ctx_len s' = ctx_len s /\
  in_batch_size s' = in_batch_size s /\
  out_batch_size s' = out_batch_size s.


(** [x[~read]] when the lengths agree. *)
Definition keep_unread (read : list bool) (x : Tensor V) : Tensor V :=
  mkTensor (feats x) (select (rows x) (invert read)).

(** The buffer once the compaction at the head of [refresh] is done. *)
Definition compact (s : ActivationBuffer) : ActivationBuffer :=
  match io s with
  | io_in | io_out =>
      set_activations (keep_unread (read s) (activations s)) s
  | io_in_to_out =>
      set_activations_out (keep_unread (read s) (activations_out s))
        (set_activations_in (keep_unread (read s) (activations_in s)) s)
  end.

(** What a run of ingestions makes of a buffer [c]: same configuration and
    widths; new vectors behind those of [c], [R]-related on the two taps;
    and the flags either those of [c], nothing having been appended, or
    all false and as many as the vectors. *)
Definition grown (R : V -> V -> Prop) (c x : ActivationBuffer) : Prop :=
  same_config c x /\
  feats (activations x) = feats (activations c) /\
  feats (activations_in x) = feats (activations_in c) /\
  feats (activations_out x) = feats (activations_out c) /\
  (exists new new_in new_out,
     rows (activations x) = rows (activations c) ++ new /\
     rows (activations_in x) = rows (activations_in c) ++ new_in /\
     rows (activations_out x) = rows (activations_out c) ++ new_out /\
     Forall2 R new_in new_out) /\
  ((read x = read c /\ activations x = activations c /\
    activations_in x = activations_in c /\
    activations_out x = activations_out c) \/
   read x = zeros (len (buffer x))).

(** [y] holds the vectors of [x] at the positions [idxs], in that
    order. *)
Definition vectors_at (x : Tensor V) (idxs : list nat) (y : Tensor V)
  : Prop :=
  feats y = feats x /\
  Forall2 (fun i v => nth_error (rows x) i = Some v) idxs (rows y).

(** [b] is the batch of the vectors at [idxs]: one tensor, or in dual-tap
    mode the pair taken from the two buffers at the same positions. *)
Definition returns (s : ActivationBuffer) (idxs : list nat) (b : Batch)
  : Prop :=
  match io s with
  | io_in | io_out =>
      exists x, b = Single x /\ vectors_at (activations s) idxs x
  | io_in_to_out =>
      exists x y,
        b = Pair x y /\
        vectors_at (activations_in s) idxs x /\
        vectors_at (activations_out s) idxs y
  end.

(** The relation that holds of any two vectors. *)
Definition any (_ _ : V) : Prop := True.

(** [randperm n] is a permutation of [0 .. n-1]. *)
Definition shuffles (randperm : nat -> list nat) : Prop :=
  forall n, Permutation (randperm n) (seq 0 n).

(** One call of [__next__] as observed: the buffer at the call, whether
    the refill ran, the buffer after the refill check, the positions
    drawn, and the buffer at the return. *)
Record Served : Type := mkServed {
  at_call : ActivationBuffer;
  refilled : bool;
  sampled_from : ActivationBuffer;
  drawn : list nat;
  at_return : ActivationBuffer
}.

(** A sequence of calls of [__next__] that all return. *)
Inductive serves (fuel : nat)
  : ActivationBuffer -> list (nat -> list nat) -> list Served ->
    ActivationBuffer -> Prop :=
| serves_nil s : serves fuel s [] [] s
| serves_cons s randperm rps s1 idxs b s' tr s'' :
    refill_check fuel s = Ok tt s1 ->
    draw randperm s1 = Ok idxs s1 ->
    __next__ fuel randperm s = Ok b s' ->
    serves fuel s' rps tr s'' ->
    serves fuel s (randperm :: rps)
      (mkServed s (Z.of_nat (unread s) <? threshold s)%Z s1 idxs s' :: tr)
      s''.

(** What one observed call does to flags and vectors: between the refill
    check and the return a set flag stays set and its position is not
    drawn; a drawn position was unread and is read at the return; the
    vectors stay in place; without a refill the buffer sampled from is the
    buffer at the call; and a refill keeps the unconsumed vectors, in
    order and with the flags they had, and puts new vectors, unread, behind
    them. *)
Definition flags_kept (c : Served) : Prop :=
  (forall i, nth_error (read (sampled_from c)) i = Some true ->
             nth_error (read (at_return c)) i = Some true /\
             ~ In i (drawn c)) /\
  (forall i, In i (drawn c) ->
             nth_error (read (sampled_from c)) i = Some false /\
             nth_error (read (at_return c)) i = Some true) /\
  buffer (at_return c) = buffer (sampled_from c) /\
  (refilled c = false -> sampled_from c = at_call c) /\
  (refilled c = true ->
   exists new,
     rows (buffer (sampled_from c)) =
       select (rows (buffer (at_call c))) (invert (read (at_call c)))
       ++ new /\
     read (sampled_from c) =
       select (read (at_call c)) (invert (read (at_call c)))
       ++ zeros (length new)).


(** The two taps of every traced pass are related by [R] position by
    position. *)
Definition taps_related (R : V -> V -> Prop) : Prop :=
  forall texts n x y,
    unwrap (submodule_input (trace texts n)) = Some x ->
    unwrap (submodule_output (trace texts n)) = Some y ->
    forall b p rx ry vi vo,
      nth_error (cells x) b = Some rx -> nth_error (cells y) b = Some ry ->
      nth_error rx p = Some vi -> nth_error ry p = Some vo ->
      R vi vo.

(** *** The refill with the flags extended

    The storage operations as the design describes them: compaction keeps
    the unconsumed entries, vectors and flags alike; an append extends the
    flags with one false flag for each new vector. *)

Definition refresh_std_body_extend : M unit :=
  texts <- text_batch None ;;
  s <- get ;;
  let tracer := trace texts (ctx_len s) in
  let hidden_states :=
    match io s with
    | io_in => submodule_input tracer
    | _ => submodule_output tracer
    end in
  hidden_states <- lift IndexError (unwrap hidden_states) ;;
  hidden_states <-
    lift IndexError
      (mask_index2 hidden_states (ne0 (attention_mask tracer))) ;;
  a <- lift RuntimeError (cat (activations s) hidden_states) ;;
  modify (set_activations a) ;;;
  modify (fun s => set_read (read s ++ zeros (len hidden_states)) s).

Definition refresh_std_extend (fuel : nat) : M unit :=
  s <- get ;;
  a <- lift IndexError (mask_index (activations s) (invert (read s))) ;;
  modify (fun s =>
    set_read (select (read s) (invert (read s))) (set_activations a s)) ;;;
  while std_short refresh_std_body_extend fuel.

Definition refresh_in_to_out_body_extend : M unit :=
  texts <- text_batch None ;;
  s <- get ;;
  let tracer := trace texts (ctx_len s) in
  hidden_states_in <- lift IndexError (unwrap (submodule_input tracer)) ;;
  hidden_states_out <- lift IndexError (unwrap (submodule_output tracer)) ;;
  hidden_states_in <-
    lift IndexError
      (mask_index2 hidden_states_in (ne0 (attention_mask tracer))) ;;
  hidden_states_out <-
    lift IndexError
      (mask_index2 hidden_states_out (ne0 (attention_mask tracer))) ;;
  a <- lift RuntimeError (cat (activations_in s) hidden_states_in) ;;
  modify (set_activations_in a) ;;;
  a <- lift RuntimeError (cat (activations_out s) hidden_states_out) ;;
  modify (set_activations_out a) ;;;
  modify (fun s => set_read (read s ++ zeros (len hidden_states_in)) s).

Definition refresh_in_to_out_extend (fuel : nat) : M unit :=
  s <- get ;;
  a <- lift IndexError (mask_index (activations_in s) (invert (read s))) ;;
  b <- lift IndexError (mask_index (activations_out s) (invert (read s))) ;;
  modify (fun s =>
    set_read (select (read s) (invert (read s)))
      (set_activations_out b (set_activations_in a s))) ;;;
  while in_to_out_short refresh_in_to_out_body_extend fuel.

Definition refresh_extend (fuel : nat) : M unit :=
  s <- get ;;
  match io s with
  | io_in | io_out => refresh_std_extend fuel
  | io_in_to_out => refresh_in_to_out_extend fuel
  end.

(** One ingestion, in the mode in effect: the body of the loop of
    [_refresh_std] or of [_refresh_in_to_out]. *)
Definition ingest : M unit :=
  s <- get ;;
  match io s with
  | io_in | io_out => refresh_std_body
  | io_in_to_out => refresh_in_to_out_body
  end.

Definition ingest_extend : M unit :=
  s <- get ;;
  match io s with
  | io_in | io_out => refresh_std_body_extend
  | io_in_to_out => refresh_in_to_out_body_extend
  end.

(** How the buffer [x] of the refill with reset and the buffer [y] of the
    refill with extended flags stand, both started on [s]: either at least
    one append took place, and they are one buffer with all flags false; or
    none did yet, and they are the compacted [s] up to the flags, which the
    former has not touched and the latter has compacted. *)
Definition agree_from (s x y : ActivationBuffer) : Prop :=
  same_config s x /\
  ((x = y /\ read x = zeros (len (buffer x))) \/
   (exists d,
      x = set_data d (compact s) /\
      y = set_data d (set_read (zeros (unread s)) (compact s)))).

(** How they stand when the two refills raise with [e]: as above; or, the
    append to [activations_out] having failed after the one to
    [activations_in] went through, as two buffers that stood as above with
    the same new vectors behind their input side. *)
Definition agree_raised (e : exn) (s x y : ActivationBuffer) : Prop :=
  agree_from s x y \/
  (e = RuntimeError /\ io s = io_in_to_out /\
   exists x0 y0 new,
     agree_from s x0 y0 /\
     x = set_activations_in (append (activations_in x0) new) x0 /\
     y = set_activations_in (append (activations_in y0) new) y0).

End Buffer.

Arguments Raise {Text V A} e s.
Arguments OutOfFuel {Text V A}.

(** ** The scenario of the specification

    Texts are numbered; each has four tokens and no padding; the vector of
    token [p] of text [i] has eight entries, all [4 i + p] on the input tap
    and [1000 + 4 i + p] on the output tap.  The input tap arrives wrapped
    in tuples, the output tap bare. *)

Module Scenario.

Definition Text : Type := nat.
Definition V : Type := list Z.

Definition tokens (max_length : Z) : list nat :=
  seq 0 (Z.to_nat (Z.min 4 max_length)).

Definition vec (base : Z) (i p : nat) : V :=
  repeat (base + Z.of_nat (4 * i + p))%Z 8.

Definition trace (texts : list Text) (max_length : Z) : Traced V :=
  mkTraced
    (HTuple [HTuple [HTensor (mkTensor3 8
      (map (fun i => map (vec 0 i) (tokens max_length)) texts))]])
    (HTensor (mkTensor3 8
      (map (fun i => map (vec 1000 i) (tokens max_length)) texts)))
    (map (fun _ => map (fun _ => 1%Z) (tokens max_length)) texts).


Definition linear : Submodule := mkSubmodule (Some 8%Z) (Some 8%Z).

Definition bare : Submodule := mkSubmodule None None.

(** [randperm] giving the identity permutation. *)
Definition ident (n : nat) : list nat := seq 0 n.

(** The buffer an outcome leaves, [s0] if there is none. *)
Definition after {A} (o : outcome Text V A) (s0 : ActivationBuffer Text V)
  : ActivationBuffer Text V :=
  match state_of o with
  | Some s => s
  | None => s0
  end.

(** The buffer constructed over the texts [d], widths read from [linear]. *)
Definition start (d : list Text) (io : IO) (n c i o : Z)
  : ActivationBuffer Text V :=
  match __init__ V d linear None None io n c i o with
  | inr s => s
  | inl _ => mkBuffer (absent V) (absent V) (absent V) [] [] io n c i o
  end.

(** [n_ctxs=1, ctx_len=4, in_batch_size=2, out_batch_size=2] over four
    texts. *)
Definition fresh (io : IO) : ActivationBuffer Text V :=
  start [0; 1; 2; 3] io 1 4 2 2.

(** The buffer after [k] calls of [__next__]. *)
Fixpoint served (k : nat) (s : ActivationBuffer Text V)
  : ActivationBuffer Text V :=
  match k with
  | O => s
  | S k' => served k' (after (__next__ trace 5 ident s) s)
  end.

(** The scenario over three texts only. *)
Definition three_texts : ActivationBuffer Text V :=
  start [0; 1; 2] io_out 1 4 2 2.

(** [n_ctxs=1, ctx_len=2, in_batch_size=1, out_batch_size=1] over two
    texts: a threshold of one. *)
Definition small : ActivationBuffer Text V :=
  start [0; 1] io_out 1 2 1 1.

(** The same model with the input tap bare and the output tap wrapped with
    a second component. *)
Definition trace_bare (texts : list Text) (max_length : Z) : Traced V :=
  mkTraced
    (HTensor (mkTensor3 8
       (map (fun i => map (vec 0 i) (tokens max_length)) texts)))
    (HTuple [HTensor (mkTensor3 8
       (map (fun i => map (vec 1000 i) (tokens max_length)) texts));
       HTensor (mkTensor3 0 [])])
    (map (fun _ => map (fun _ => 1%Z) (tokens max_length)) texts).

(** [n_ctxs=1, ctx_len=1]: a target below two. *)
Definition untargeted : ActivationBuffer Text V :=
  start [0; 1] io_out 1 1 1 1.




End Scenario.

(** * Properties *)

Unset Implicit Arguments.

(** ** Lists of flags and positions *)

Section Lists.
Context {A : Type}.

Lemma select_length (l : list A) (mask : list bool) :
  length mask = length l -> length (select l mask) = sum mask.
Proof.
  revert mask; induction l as [|x l IH]; intros [|b mask] H;
    simpl in *; try discriminate; auto.
  injection H as H. destruct b; unfold sum in *; simpl; rewrite IH; auto.
Qed.

Lemma take_spec (l : list A) (p : list nat) (vs : list A) :
  take l p = Some vs <->
  Forall2 (fun i v => nth_error l i = Some v) p vs.
Proof.
  revert vs; induction p as [|i p IH]; intros vs; simpl.
  - split; intros H.
    + injection H as <-. constructor.
    + inversion H. reflexivity.
  - destruct (nth_error l i) as [v|] eqn:Hi.
    + destruct (take l p) as [vs'|] eqn:Hp.
      * split; intros H.
        -- injection H as <-. constructor; auto. apply IH; reflexivity.
        -- inversion H as [|? w ? ws Hw Hrest]; subst.
           apply IH in Hrest. congruence.
      * split; intros H; [discriminate|].
        inversion H as [|? w ? ws Hw Hrest]; subst.
        apply IH in Hrest. discriminate.
    + split; intros H; [discriminate|].
      inversion H; subst; congruence.
Qed.

Lemma take_in_range (l : list A) (p : list nat) :
  Forall (fun i => i < length l) p ->
  exists vs, take l p = Some vs /\ length vs = length p.
Proof.
  induction 1 as [|i p Hi _ [vs [IH Hlen]]]; simpl.
  - exists []; auto.
  - apply nth_error_Some in Hi.
    destruct (nth_error l i) as [v|]; [|congruence].
    rewrite IH. exists (v :: vs); simpl; auto.
Qed.

Lemma py_prefix_nonneg (k : Z) (l : list A) :
  (0 <= k)%Z -> py_prefix k l = firstn (Z.to_nat k) l.
Proof.
  intros H; unfold py_prefix.
  destruct (Z.leb_spec 0 k); [reflexivity | lia].
Qed.

Lemma py_prefix_firstn (k : Z) (l : list A) :
  exists n, py_prefix k l = firstn n l.
Proof. unfold py_prefix; destruct (0 <=? k)%Z; eauto. Qed.

End Lists.

Lemma nonzero_from_In (mask : list bool) (i j : nat) :
  In j (nonzero_from i mask) <->
  exists k, j = i + k /\ nth_error mask k = Some true.
Proof.
  revert i; induction mask as [|b mask IH]; intros i; simpl.
  - split; [tauto | intros [[|k] [_ H]]; discriminate].
  - assert (Hrec : In j (nonzero_from (S i) mask) <->
                   exists k, j = i + S k /\ nth_error mask k = Some true).
    { rewrite IH; split; intros [k [-> H]]; exists k; split; auto; lia. }
    destruct b; simpl; rewrite Hrec; split.
    + intros [<- | [k [-> H]]]; [exists 0 | exists (S k)]; simpl; auto.
    + intros [[|k] [-> H]]; [left; lia | right; exists k; auto].
    + intros [k [-> H]]; exists (S k); auto.
    + intros [[|k] [-> H]]; [discriminate | exists k; auto].
Qed.

Lemma nonzero_from_NoDup (mask : list bool) (i : nat) :
  NoDup (nonzero_from i mask).
Proof.
  revert i; induction mask as [|b mask IH]; intros i; simpl.
  - constructor.
  - destruct b; auto. constructor; auto.
    rewrite nonzero_from_In; intros [k [H _]]; lia.
Qed.

Lemma nonzero_from_length (mask : list bool) (i : nat) :
  length (nonzero_from i mask) = sum mask.
Proof.
  revert i; induction mask as [|b mask IH]; intros i; simpl; auto.
  destruct b; unfold sum in *; simpl; rewrite IH; auto.
Qed.

Lemma nth_error_invert (r : list bool) (k : nat) (b : bool) :
  nth_error (invert r) k = Some b <-> nth_error r k = Some (negb b).
Proof.
  unfold invert; rewrite nth_error_map.
  destruct (nth_error r k) as [c|]; simpl; [|split; discriminate].
  split; intros H; injection H as H; f_equal.
  - subst; symmetry; apply negb_involutive.
  - subst; apply negb_involutive.
Qed.

(** The positions offered to the sampler are exactly the unread ones. *)
Lemma nonzero_invert_In (r : list bool) (j : nat) :
  In j (nonzero (invert r)) <-> nth_error r j = Some false.
Proof.
  unfold nonzero; rewrite nonzero_from_In; split.
  - intros [k [-> H]]; apply nth_error_invert in H; assumption.
  - intros H; exists j; split; auto. apply nth_error_invert; assumption.
Qed.

Lemma set_true_length (i : nat) (r : list bool) :
  length (set_true i r) = length r.
Proof.
  revert i; induction r as [|b r IH]; intros [|i]; simpl; auto.
Qed.

Lemma set_true_nth (i j : nat) (r : list bool) :
  nth_error (set_true i r) j =
  if Nat.eqb j i then option_map (fun _ => true) (nth_error r j)
  else nth_error r j.
Proof.
  revert i j; induction r as [|b r IH]; intros [|i] [|j]; simpl; auto;
    destruct (Nat.eqb j i); reflexivity.
Qed.

Lemma index_put_length (idxs : list nat) (r : list bool) :
  length (index_put r idxs) = length r.
Proof.
  unfold index_put; revert r; induction idxs as [|i idxs IH]; intros r;
    simpl; auto.
  rewrite IH; apply set_true_length.
Qed.

Lemma index_put_nth (idxs : list nat) (r : list bool) (j : nat) :
  nth_error (index_put r idxs) j = Some true <->
  nth_error r j = Some true \/ (In j idxs /\ j < length r).
Proof.
  unfold index_put; revert r; induction idxs as [|i idxs IH]; intros r; simpl.
  - tauto.
  - rewrite IH, set_true_length, set_true_nth.
    destruct (Nat.eqb_spec j i) as [->|Hne].
    + destruct (nth_error r i) as [b|] eqn:Hi; simpl.
      * assert (i < length r) by (apply nth_error_Some; congruence).
        intuition.
      * assert (~ i < length r) by (rewrite <- nth_error_Some; congruence).
        intuition discriminate.
    + intuition congruence.
Qed.

Lemma index_put_nth_false (idxs : list nat) (r : list bool) (j : nat) :
  nth_error (index_put r idxs) j = Some false <->
  nth_error r j = Some false /\ ~ In j idxs.
Proof.
  unfold index_put; revert r; induction idxs as [|i idxs IH]; intros r; simpl.
  - tauto.
  - rewrite IH, set_true_nth.
    destruct (Nat.eqb_spec j i) as [->|Hne].
    + destruct (nth_error r i); simpl; intuition discriminate.
    + intuition congruence.
Qed.

Lemma sum_set_true (i : nat) (r : list bool) :
  nth_error r i = Some false ->
  S (sum (invert (set_true i r))) = sum (invert r).
Proof.
  revert i; induction r as [|b r IH]; intros [|i] H; simpl in *;
    try discriminate.
  - injection H as ->. reflexivity.
  - specialize (IH _ H). unfold sum, invert in *; simpl.
    destruct (negb b); simpl; lia.
Qed.

Lemma sum_index_put (idxs : list nat) (r : list bool) :
  NoDup idxs ->
  (forall i, In i idxs -> nth_error r i = Some false) ->
  sum (invert (index_put r idxs)) + length idxs = sum (invert r).
Proof.
  unfold index_put; revert r; induction idxs as [|i idxs IH];
    intros r Hnd Hun; simpl.
  - lia.
  - inversion Hnd as [|? ? Hni Hnd']; subst.
    rewrite <- (sum_set_true i r) by (apply Hun; left; reflexivity).
    rewrite <- (IH (set_true i r)); [lia | assumption |].
    intros j Hj. rewrite set_true_nth.
    destruct (Nat.eqb_spec j i) as [->|_]; [contradiction|].
    apply Hun; right; assumption.
Qed.

Section Prefix.
Context {A : Type}.

Lemma firstn_incl (n : nat) (l : list A) (x : A) :
  In x (firstn n l) -> In x l.
Proof.
  intros H. rewrite <- (firstn_skipn n l). apply in_or_app; auto.
Qed.

Lemma firstn_NoDup (n : nat) (l : list A) :
  NoDup l -> NoDup (firstn n l).
Proof.
  revert l; induction n as [|n IH]; intros [|x l] H; simpl;
    try constructor.
  - inversion H; subst. intros Hin; apply firstn_incl in Hin; auto.
  - inversion H; subst; auto.
Qed.

(** Reading a duplicate-free list at distinct positions gives distinct
    elements. *)
Lemma take_NoDup (l : list A) (p : list nat) (vs : list A) :
  NoDup l -> NoDup p -> take l p = Some vs -> NoDup vs.
Proof.
  intros Hl Hp H; apply take_spec in H.
  induction H as [|i v p vs Hi Hrest IH]; [constructor|].
  inversion Hp as [|? ? Hni Hp']; subst.
  constructor; auto.
  intros Hin.
  assert (Hex : exists j, In j p /\ nth_error l j = Some v).
  { clear - Hrest Hin. induction Hrest as [|j w p vs Hj _ IH'].
    - contradiction.
    - destruct Hin as [<- | Hin].
      + exists j; simpl; auto.
      + destruct (IH' Hin) as [k [Hk Hv]]. exists k; simpl; auto. }
  destruct Hex as [j [Hj Hv]].
  assert (i = j).
  { apply (proj1 (NoDup_nth_error l) Hl).
    - apply nth_error_Some; congruence.
    - congruence. }
  subst; contradiction.
Qed.

Lemma take_In (l : list A) (p : list nat) (vs : list A) (v : A) :
  take l p = Some vs -> In v vs -> In v l.
Proof.
  intros H; apply take_spec in H.
  induction H as [|i w p vs Hi _ IH]; simpl; [tauto|].
  intros [<- | Hin]; auto. eapply nth_error_In; eauto.
Qed.

End Prefix.

Lemma shuffle_prefix (randperm : nat -> list nat) (k : Z) (n : nat) :
  (forall m, Permutation (randperm m) (seq 0 m)) ->
  NoDup (py_prefix k (randperm n)) /\
  Forall (fun i => i < n) (py_prefix k (randperm n)) /\
  ((0 <= k)%Z ->
   length (py_prefix k (randperm n)) = Nat.min (Z.to_nat k) n).
Proof.
  intros Hperm. specialize (Hperm n).
  destruct (py_prefix_firstn k (randperm n)) as [m Hm].
  split; [|split].
  - rewrite Hm. apply firstn_NoDup.
    eapply Permutation_NoDup; [symmetry; eassumption | apply seq_NoDup].
  - rewrite Hm. apply Forall_forall; intros i Hi.
    apply firstn_incl in Hi.
    eapply Permutation_in in Hi; [|eassumption].
    apply in_seq in Hi; lia.
  - intros Hk. rewrite py_prefix_nonneg by assumption.
    rewrite length_firstn, (Permutation_length Hperm), length_seq.
    reflexivity.
Qed.

(** ** Construction *)

Section Construction.
Variables Text V : Type.

Lemma infer_inr (given attr : option Z) (msg : string) (f : Z) :
  infer given attr msg = inr f <-> supplied given attr f.
Proof.
  unfold infer, supplied.
  destruct given as [g|]; [|destruct attr as [a|]];
    split; intros H; try discriminate.
  - injection H as ->; auto.
  - destruct H as [H | [H _]]; congruence.
  - injection H as ->; auto.
  - destruct H as [H | [_ H]]; congruence.
  - destruct H as [H | [_ H]]; discriminate.
Qed.

Lemma infer_inl (given attr : option Z) (msg : string) (e : exn) :
  infer given attr msg = inl e -> e = ValueError msg.
Proof.
  unfold infer; destruct given; [|destruct attr]; congruence.
Qed.

Lemma allocate_inr (f : Z) (a : Tensor V) :
  allocate V f = inr a <-> (a = mkTensor f [] /\ (0 <= f)%Z).
Proof.
  unfold allocate, empty. destruct (Z.leb_spec 0 f) as [Hf|Hf]; split.
  - intros H; injection H as <-; auto.
  - intros [-> _]; reflexivity.
  - discriminate.
  - intros [_ H]; lia.
Qed.

(** C9. When the width of an active tap is neither supplied nor readable
    from the submodule, [__init__] raises ValueError; and a construction
    that succeeds sizes each active buffer with the supplied or the read
    width, never with a default. *)
Theorem init_needs_feature_width
    (d : list Text) (submodule : Submodule) (in_feats out_feats : option Z)
    (io : IO) (n c i o : Z) :
  (((io = io_in \/ io = io_in_to_out) /\
    in_feats = None /\ in_features submodule = None) \/
   ((io = io_out \/ io = io_in_to_out) /\
    out_feats = None /\ out_features submodule = None) ->
   exists msg,
     __init__ V d submodule in_feats out_feats io n c i o =
     inl (ValueError msg)) /\
  (forall s,
     __init__ V d submodule in_feats out_feats io n c i o = inr s ->
     match io with
     | io_in =>
         supplied in_feats (in_features submodule) (feats (activations s))
     | io_out =>
         supplied out_feats (out_features submodule)
           (feats (activations s))
     | io_in_to_out =>
         supplied in_feats (in_features submodule)
           (feats (activations_in s)) /\
         supplied out_feats (out_features submodule)
           (feats (activations_out s))
     end).
Proof.
  split.
  - intros [[Hio [-> Hin]] | [Hio [-> Hout]]].
    + unfold __init__. destruct Hio as [-> | ->]; simpl; rewrite Hin; eauto.
    + unfold __init__. destruct Hio as [-> | ->].
      * simpl; rewrite Hout; eauto.
      * destruct (infer in_feats (in_features submodule) in_msg) eqn:E.
        -- apply infer_inl in E; subst; eauto.
        -- simpl; rewrite Hout; eauto.
  - intros s H. unfold __init__ in H. destruct io.
    + destruct (infer in_feats _ _) eqn:E; [discriminate|].
      destruct (allocate V z) as [|a] eqn:Ea; [discriminate|].
      apply allocate_inr in Ea. destruct Ea as [-> _].
      injection H as <-. simpl. eapply infer_inr, E.
    + destruct (infer out_feats _ _) eqn:E; [discriminate|].
      destruct (allocate V z) as [|a] eqn:Ea; [discriminate|].
      apply allocate_inr in Ea. destruct Ea as [-> _].
      injection H as <-. simpl. eapply infer_inr, E.
    + destruct (infer in_feats _ _) eqn:E; [discriminate|].
      destruct (infer out_feats _ _) eqn:E'; [discriminate|].
      destruct (allocate V z) as [|ai] eqn:Ea; [discriminate|].
      destruct (allocate V z0) as [|ao] eqn:Eo; [discriminate|].
      apply allocate_inr in Ea, Eo. destruct Ea as [-> _], Eo as [-> _].
      injection H as <-. simpl.
      split; [eapply infer_inr, E | eapply infer_inr, E'].
Qed.

(** The buffers of a constructed object hold no vector. *)
Lemma init_fields (d : list Text) (submodule : Submodule)
    (in_feats out_feats : option Z) (io0 : IO) (n c i o : Z)
    (s : ActivationBuffer Text V) :
  __init__ V d submodule in_feats out_feats io0 n c i o = inr s ->
  data s = d /\ read s = [] /\
  rows (activations s) = [] /\ rows (activations_in s) = [] /\
  rows (activations_out s) = [] /\
  io s = io0 /\ n_ctxs s = n /\ ctx_len s = c /\
  in_batch_size s = i /\ out_batch_size s = o.
Proof.
  unfold __init__, allocate, empty. intros H.
  destruct io0; repeat (destruct (infer _ _ _); [discriminate|]);
    repeat (destruct (Z.leb _ _); [|discriminate]);
    injection H as <-; simpl; auto 12.
Qed.

(** A constructed buffer is empty, flags and vectors alike. *)
Lemma init_consistent (d : list Text) (submodule : Submodule)
    (in_feats out_feats : option Z) (io : IO) (n c i o : Z)
    (s : ActivationBuffer Text V) :
  __init__ V d submodule in_feats out_feats io n c i o = inr s ->
  consistent s /\ unread s = 0 /\ data s = d.
Proof.
  intros H. apply init_fields in H.
  destruct H as (Hd & Hr & Ha & Hi & Ho & Hio & _).
  unfold consistent, unread, len. rewrite Hr, Ha, Hi, Ho, Hio.
  destruct io; auto.
Qed.

End Construction.

(** ** The sampler *)

Section Controller.
Variables Text V : Type.
Variable trace : list Text -> Z -> Traced V.

Lemma unread_nonzero (s : ActivationBuffer Text V) :
  length (nonzero (invert (read s))) = unread s.
Proof. apply nonzero_from_length. Qed.

(** With one unread vector the positions are squeezed to a scalar. *)
Lemma draw_scalar (randperm : nat -> list nat) (s : ActivationBuffer Text V) :
  unread s = 1 -> draw randperm s = Raise TypeError s.
Proof.
  intros H. rewrite <- unread_nonzero in H.
  unfold draw, bind, get, lift.
  destruct (nonzero (invert (read s))) as [|i [|j u]];
    simpl in *; try discriminate.
  reflexivity.
Qed.

Lemma squeeze_vector (u : list nat) :
  length u <> 1 -> squeeze u = Vector u.
Proof. destruct u as [|i [|j u]]; simpl; congruence. Qed.

(** Otherwise the draw returns distinct unread positions, as many as the
    batch size allows. *)
Lemma draw_spec (randperm : nat -> list nat) (s : ActivationBuffer Text V) :
  shuffles randperm -> unread s <> 1 ->
  exists idxs,
    draw randperm s = Ok idxs s /\
    NoDup idxs /\
    (forall i, In i idxs -> nth_error (read s) i = Some false) /\
    ((0 <= out_batch_size s)%Z ->
     length idxs = Nat.min (Z.to_nat (out_batch_size s)) (unread s)).
Proof.
  intros Hperm Hne. rewrite <- unread_nonzero in Hne.
  unfold draw, bind, get, lift.
  rewrite (squeeze_vector _ Hne); simpl.
  destruct (shuffle_prefix randperm (out_batch_size s)
              (length (nonzero (invert (read s)))) Hperm)
    as [Hnd [Hrange Hlen]].
  destruct (take_in_range _ _ Hrange) as [idxs [Htake Hl]].
  rewrite Htake. exists idxs. split; [reflexivity|]. split; [|split].
  - eapply take_NoDup; [apply nonzero_from_NoDup | exact Hnd | exact Htake].
  - intros i Hi. apply nonzero_invert_In. eapply take_In; eauto.
  - intros Hk. rewrite Hl, Hlen, unread_nonzero by assumption. reflexivity.
Qed.

Lemma draw_state (randperm : nat -> list nat)
    (s s' : ActivationBuffer Text V) (idxs : list nat) :
  draw randperm s = Ok idxs s' -> s' = s /\ unread s <> 1.
Proof.
  intros H. destruct (Nat.eq_dec (unread s) 1) as [H1|H1].
  - rewrite (draw_scalar randperm s H1) in H. discriminate.
  - split; [|assumption].
    unfold draw, bind, get, lift in H.
    destruct (len_index _); [|discriminate].
    destruct (index _ _); congruence.
Qed.

(** The flags after marking [idxs], drawn among the unread positions. *)
Lemma unread_index_put (s : ActivationBuffer Text V) (idxs : list nat) :
  NoDup idxs ->
  (forall i, In i idxs -> nth_error (read s) i = Some false) ->
  unread (set_read (index_put (read s) idxs) s) + length idxs = unread s.
Proof. intros; unfold unread; simpl; apply sum_index_put; assumption. Qed.

Lemma int64_fits (z : Z) :
  (- 2 ^ 63 <= z < 2 ^ 63)%Z -> int64 z = Some z.
Proof.
  intros Hz. unfold int64.
  destruct (Z.leb_spec (- 2 ^ 63) z), (Z.ltb_spec z (2 ^ 63));
    try reflexivity; lia.
Qed.

Lemma int64_overflow (z : Z) :
  (z < - 2 ^ 63 \/ 2 ^ 63 <= z)%Z -> int64 z = None.
Proof.
  intros Hz. unfold int64.
  destruct (Z.leb_spec (- 2 ^ 63) z), (Z.ltb_spec z (2 ^ 63));
    try reflexivity; lia.
Qed.

Lemma int64_Some (z b : Z) :
  int64 z = Some b -> b = z /\ (- 2 ^ 63 <= z < 2 ^ 63)%Z.
Proof.
  unfold int64.
  destruct (Z.leb_spec (- 2 ^ 63) z), (Z.ltb_spec z (2 ^ 63));
    simpl; intros Hz; try discriminate.
  injection Hz as <-. lia.
Qed.

(** The refill check leaves a buffer above the threshold alone. *)
Lemma refill_check_skip (fuel : nat) (s : ActivationBuffer Text V) :
  (- 2 ^ 63 <= threshold s < 2 ^ 63)%Z ->
  (threshold s <= Z.of_nat (unread s))%Z ->
  refill_check trace fuel s = Ok tt s.
Proof.
  intros Hfit H. unfold refill_check, bind, get, lift.
  rewrite (int64_fits _ Hfit).
  destruct (Z.ltb_spec (Z.of_nat (unread s)) (threshold s)); [lia|].
  reflexivity.
Qed.

Lemma refill_check_run (fuel : nat) (s : ActivationBuffer Text V) :
  (- 2 ^ 63 <= threshold s < 2 ^ 63)%Z ->
  (Z.of_nat (unread s) < threshold s)%Z ->
  refill_check trace fuel s = refresh trace fuel s.
Proof.
  intros Hfit H. unfold refill_check, bind, get, lift.
  rewrite (int64_fits _ Hfit).
  destruct (Z.ltb_spec (Z.of_nat (unread s)) (threshold s)); [|lia].
  reflexivity.
Qed.

(** When the threshold does not fit 64 bits the comparison raises and the
    refill does not run. *)
Lemma refill_check_overflow (fuel : nat) (s : ActivationBuffer Text V) :
  (threshold s < - 2 ^ 63 \/ 2 ^ 63 <= threshold s)%Z ->
  refill_check trace fuel s = Raise OverflowError s.
Proof.
  intros H. unfold refill_check, bind, get, lift.
  rewrite (int64_overflow _ H). reflexivity.
Qed.

(** A refill check that does not raise OverflowError had a threshold that
    fits. *)
Lemma refill_check_fits (fuel : nat) (s : ActivationBuffer Text V) :
  refill_check trace fuel s <> Raise OverflowError s ->
  (- 2 ^ 63 <= threshold s < 2 ^ 63)%Z.
Proof.
  intros H.
  destruct (Z.lt_ge_cases (threshold s) (- 2 ^ 63)) as [Hlo|Hlo].
  - exfalso. apply H, refill_check_overflow. lia.
  - destruct (Z.lt_ge_cases (threshold s) (2 ^ 63)) as [Hhi|Hhi]; [lia|].
    exfalso. apply H, refill_check_overflow. lia.
Qed.

Lemma refill_check_Ok_fits (fuel : nat) (s s1 : ActivationBuffer Text V) :
  refill_check trace fuel s = Ok tt s1 ->
  (- 2 ^ 63 <= threshold s < 2 ^ 63)%Z.
Proof.
  intros H. apply (refill_check_fits fuel). rewrite H. discriminate.
Qed.

(** *** One unread vector *)

(** C10. With exactly one unread vector and a threshold of at most one,
    [__next__] does not refill, squeezes the one position to a
    0-dimensional tensor, and [len] of it raises: the call ends in a
    TypeError, the buffer untouched, instead of returning the vector.  (A
    threshold below [-2^63] does not reach the squeeze: the comparison
    raises OverflowError, the buffer untouched as well.) *)
Theorem next_single_unread_raises
    (fuel : nat) (randperm : nat -> list nat) (s : ActivationBuffer Text V) :
  unread s = 1 ->
  (threshold s <= 1)%Z ->
  squeeze (nonzero (invert (read s))) =
    Scalar (hd 0 (nonzero (invert (read s)))) /\
  len_index (squeeze (nonzero (invert (read s)))) = None /\
  __next__ trace fuel randperm s =
    Raise (if (threshold s <? - 2 ^ 63)%Z then OverflowError else TypeError)
      s.
Proof.
  intros H1 Ht.
  assert (Hu := unread_nonzero s). rewrite H1 in Hu.
  split; [|split].
  - destruct (nonzero (invert (read s))) as [|i [|j u]];
      simpl in *; try discriminate; reflexivity.
  - destruct (nonzero (invert (read s))) as [|i [|j u]];
      simpl in *; try discriminate; reflexivity.
  - unfold __next__, bind.
    destruct (Z.ltb_spec (threshold s) (- 2 ^ 63)) as [Hlo|Hlo].
    + rewrite refill_check_overflow by (left; exact Hlo). reflexivity.
    + rewrite refill_check_skip by (rewrite ?H1; simpl; lia).
      rewrite (draw_scalar randperm s H1). reflexivity.
Qed.



(** ** The refill *)


Lemma pull_spec (n : nat) (d : list Text) :
  pull n d =
  if Nat.leb n (length d) then (Some (firstn n d), skipn n d)
  else (None, []).
Proof.
  revert d; induction n as [|n IH]; intros [|x d]; simpl; auto.
  rewrite IH. destruct (Nat.leb n (length d)); reflexivity.
Qed.

Lemma text_batch_enough (b : option Z) (s : ActivationBuffer Text V) :
  let n := Z.to_nat (match b with None => in_batch_size s | Some z => z end)
  in
  n <= length (data s) ->
  text_batch b s = Ok (firstn n (data s)) (set_data (skipn n (data s)) s).
Proof.
  intros n H. unfold text_batch. fold n. rewrite pull_spec.
  destruct (Nat.leb_spec n (length (data s))); [reflexivity | lia].
Qed.

Lemma text_batch_short (b : option Z) (s : ActivationBuffer Text V) :
  let n := Z.to_nat (match b with None => in_batch_size s | Some z => z end)
  in
  length (data s) < n ->
  text_batch b s = Raise end_of_stream (set_data [] s).
Proof.
  intros n H. unfold text_batch. fold n. rewrite pull_spec.
  destruct (Nat.leb_spec n (length (data s))); [lia | reflexivity].
Qed.

Lemma text_batch_cases (b : option Z) (s : ActivationBuffer Text V) :
  (exists texts d, text_batch b s = Ok texts (set_data d s)) \/
  (exists d, text_batch b s = Raise end_of_stream (set_data d s)).
Proof.
  unfold text_batch. destruct (pull _ _) as [[texts|] d]; eauto.
Qed.

(** *** Loops *)

(** A loop keeps what its body keeps, and ends raising as its body
    does. *)
Lemma while_rule_raise (cond : ActivationBuffer Text V -> bool)
    (body : M Text V unit) (I : ActivationBuffer Text V -> Prop)
    (E : exn -> ActivationBuffer Text V -> Prop) :
  (forall s, I s -> cond s = true ->
     match body s with
     | Ok _ s' => I s'
     | Raise e s' => E e s'
     | OutOfFuel => True
     end) ->
  forall fuel s, I s ->
    match while cond body fuel s with
    | Ok _ s' => I s' /\ cond s' = false
    | Raise e s' => E e s'
    | OutOfFuel => True
    end.
Proof.
  intros Hbody. induction fuel as [|fuel IH]; intros s Hs; simpl;
    destruct (cond s) eqn:Hc; simpl; auto.
  unfold bind. specialize (Hbody s Hs Hc).
  destruct (body s) as [[] s'|e s'|]; auto.
  apply IH; assumption.
Qed.

Lemma while_rule (cond : ActivationBuffer Text V -> bool)
    (body : M Text V unit) (I : ActivationBuffer Text V -> Prop) :
  (forall s, I s -> cond s = true ->
     match body s with
     | Ok _ s' => I s'
     | Raise _ s' => I s'
     | OutOfFuel => True
     end) ->
  forall fuel s, I s ->
    match while cond body fuel s with
    | Ok _ s' => I s' /\ cond s' = false
    | Raise _ s' => I s'
    | OutOfFuel => True
    end.
Proof.
  intros Hbody. apply (while_rule_raise cond body I (fun _ => I)).
  exact Hbody.
Qed.

(** *** One ingestion *)

Lemma cat_cases (x new : Tensor V) :
  (feats new = feats x /\ cat x new = Some (append x (rows new))) \/
  (feats new <> feats x /\ cat x new = None).
Proof.
  unfold cat. destruct (Z.eqb_spec (feats x) (feats new)); auto.
Qed.

Lemma mask_index2_cases (x : Tensor3 V) (mask : list (list bool)) :
  (exists new,
     select2 (cells x) mask = Some new /\
     mask_index2 x mask = Some (mkTensor (feats3 x) new)) \/
  mask_index2 x mask = None.
Proof.
  unfold mask_index2. destruct (select2 _ _) as [new|]; simpl; eauto.
Qed.

Lemma refresh_std_body_cases (s : ActivationBuffer Text V) :
  (exists d new,
     refresh_std_body trace s =
     Ok tt (set_read (zeros (len (append (activations s) new)))
              (set_activations (append (activations s) new)
                 (set_data d s)))) \/
  (exists e d, refresh_std_body trace s = Raise e (set_data d s)).
Proof.
  unfold refresh_std_body, bind, get, lift, modify.
  destruct (text_batch_cases None s) as [[texts [d ->]] | [d ->]];
    [|right; eauto].
  simpl. destruct (unwrap _) as [h|]; [|right; eauto].
  destruct (mask_index2_cases h
              (ne0 (attention_mask (trace texts (ctx_len s)))))
    as [(new & _ & ->) | ->]; [|right; eauto].
  destruct (cat_cases (activations s) (mkTensor (feats3 h) new))
    as [(_ & ->) | (_ & ->)]; [left|right]; eauto.
Qed.

(** An ingestion of the dual-tap mode returns with vectors appended to
    both buffers; or raises with nothing appended; or raises on the append
    to [activations_out], the vectors appended to [activations_in]
    alone. *)
Lemma refresh_in_to_out_body_cases (s : ActivationBuffer Text V) :
  (exists d texts x y new_in new_out,
     unwrap (submodule_input (trace texts (ctx_len s))) = Some x /\
     unwrap (submodule_output (trace texts (ctx_len s))) = Some y /\
     select2 (cells x) (ne0 (attention_mask (trace texts (ctx_len s))))
       = Some new_in /\
     select2 (cells y) (ne0 (attention_mask (trace texts (ctx_len s))))
       = Some new_out /\
     refresh_in_to_out_body trace s =
     Ok tt (set_read (zeros (len (append (activations_in s) new_in)))
              (set_activations_out (append (activations_out s) new_out)
                 (set_activations_in (append (activations_in s) new_in)
                    (set_data d s))))) \/
  (exists e d, refresh_in_to_out_body trace s = Raise e (set_data d s)) \/
  (exists d new_in,
     refresh_in_to_out_body trace s =
     Raise RuntimeError
       (set_activations_in (append (activations_in s) new_in)
          (set_data d s))).
Proof.
  unfold refresh_in_to_out_body, bind, get, lift, modify.
  destruct (text_batch_cases None s) as [[texts [d ->]] | [d ->]];
    [|right; left; eauto].
  simpl.
  destruct (unwrap (submodule_input _)) as [x|] eqn:Hx;
    [|right; left; eauto].
  destruct (unwrap (submodule_output _)) as [y|] eqn:Hy;
    [|right; left; eauto].
  destruct (mask_index2_cases x
              (ne0 (attention_mask (trace texts (ctx_len s)))))
    as [(new_in & Hi & ->) | ->]; [|right; left; eauto].
  destruct (mask_index2_cases y
              (ne0 (attention_mask (trace texts (ctx_len s)))))
    as [(new_out & Ho & ->) | ->]; [|right; left; eauto].
  destruct (cat_cases (activations_in s) (mkTensor (feats3 x) new_in))
    as [(_ & ->) | (_ & ->)]; [|right; left; eauto].
  simpl.
  destruct (cat_cases (activations_out s) (mkTensor (feats3 y) new_out))
    as [(_ & ->) | (_ & ->)]; [|right; right; eauto].
  left. exists d, texts, x, y, new_in, new_out. auto.
Qed.

(** An ingestion that finds too few texts raises and appends nothing. *)
Lemma refresh_std_body_short (s : ActivationBuffer Text V) :
  length (data s) < Z.to_nat (in_batch_size s) ->
  refresh_std_body trace s = Raise end_of_stream (set_data [] s).
Proof.
  intros H. unfold refresh_std_body, bind.
  rewrite (text_batch_short None s H). reflexivity.
Qed.

Lemma refresh_in_to_out_body_short (s : ActivationBuffer Text V) :
  length (data s) < Z.to_nat (in_batch_size s) ->
  refresh_in_to_out_body trace s = Raise end_of_stream (set_data [] s).
Proof.
  intros H. unfold refresh_in_to_out_body, bind.
  rewrite (text_batch_short None s H). reflexivity.
Qed.


(** ** Alignment of what is selected from the two taps *)

Section Related.
Variables (A : Type) (R : A -> A -> Prop).



(** Rows related position by position stay so under one mask. *)
Lemma select_pointwise (r1 r2 : list A) (mask : list bool) :
length mask = length r1 -> length mask = length r2 ->
(forall p v w, nth_error r1 p = Some v -> nth_error r2 p = Some w ->
               R v w) ->
Forall2 R (select r1 mask) (select r2 mask).
Proof.
revert r2 mask; induction r1 as [|x r1 IH]; intros [|y r2] [|b mask];
  simpl; intros H1 H2 Hp; try discriminate; try constructor.
assert (Hrest : Forall2 R (select r1 mask) (select r2 mask)).
{ apply IH; try lia. intros p v w Hv Hw. apply (Hp (S p)); assumption. }
destruct b; auto. constructor; auto. apply (Hp 0); reflexivity.
Qed.

Lemma select2_pointwise (x y : list (list A)) (mask : list (list bool))
  (a b : list A) :
(forall i p rx ry v w,
   nth_error x i = Some rx -> nth_error y i = Some ry ->
   nth_error rx p = Some v -> nth_error ry p = Some w -> R v w) ->
select2 x mask = Some a -> select2 y mask = Some b -> Forall2 R a b.
Proof.
revert y mask a b; induction x as [|rx x IH];
  intros [|ry y] [|m mask] a b Hp Ha Hb; simpl in *; try discriminate.
- injection Ha as <-; injection Hb as <-; constructor.
- destruct (Nat.eqb_spec (length m) (length rx)) as [E1|]; [|discriminate].
  destruct (Nat.eqb_spec (length m) (length ry)) as [E2|]; [|discriminate].
  destruct (select2 x mask) as [a'|] eqn:Ea; [|discriminate].
  destruct (select2 y mask) as [b'|] eqn:Eb; [|discriminate].
  injection Ha as <-; injection Hb as <-.
  apply Forall2_app.
  + apply select_pointwise; auto.
    intros p v w. apply (Hp 0 p rx ry); reflexivity.
  + apply (IH y mask); auto.
    intros i p rx' ry' v w. apply (Hp (S i)).
Qed.

End Related.

(** ** A refill cycle *)

Section Cycle.
Variable R : V -> V -> Prop.

Lemma grown_refl (c : ActivationBuffer Text V) : grown R c c.
Proof.
unfold grown, same_config. split; [tauto|].
repeat (split; [reflexivity|]). split.
- exists [], [], []. rewrite !app_nil_r. auto.
- left; auto.
Qed.

Lemma grown_set_data (c x : ActivationBuffer Text V) (d : list Text) :
grown R c x -> grown R c (set_data d x).
Proof. intros H; exact H. Qed.

Lemma grown_std_step (c x : ActivationBuffer Text V) (d : list Text)
  (new : list V) :
io c <> io_in_to_out -> grown R c x ->
grown R c
  (set_read (zeros (len (append (activations x) new)))
     (set_activations (append (activations x) new) (set_data d x))).
Proof.
intros Hio (Hc & Hf & Hfi & Hfo & (n & ni & no & Hn & Hni & Hno & HR) & _).
unfold grown. split; [exact Hc|]. simpl.
repeat (split; [assumption|]). split.
- exists (n ++ new), ni, no. rewrite Hn, app_assoc. auto.
- right. unfold buffer; simpl. destruct Hc as [Hc _]. rewrite Hc.
  destruct (io c); congruence.
Qed.

Lemma grown_in_to_out_step (c x : ActivationBuffer Text V) (d : list Text)
  (new_in new_out : list V) :
io c = io_in_to_out -> Forall2 R new_in new_out -> grown R c x ->
grown R c
  (set_read (zeros (len (append (activations_in x) new_in)))
     (set_activations_out (append (activations_out x) new_out)
        (set_activations_in (append (activations_in x) new_in)
           (set_data d x)))).
Proof.
intros Hio Hnew
  (Hc & Hf & Hfi & Hfo & (n & ni & no & Hn & Hni & Hno & HR) & _).
unfold grown. split; [exact Hc|]. simpl.
repeat (split; [assumption|]). split.
- exists n, (ni ++ new_in), (no ++ new_out).
  rewrite Hni, Hno, !app_assoc. repeat split; auto.
  apply Forall2_app; assumption.
- right. unfold buffer; simpl. destruct Hc as [Hc _]. rewrite Hc, Hio.
  reflexivity.
Qed.

Lemma std_loop_grown (fuel : nat) (c : ActivationBuffer Text V) :
io c <> io_in_to_out ->
match while (@std_short Text V) (refresh_std_body trace) fuel c with
| Ok _ x => grown R c x /\ std_short x = false
| Raise _ x => grown R c x
| OutOfFuel => True
end.
Proof.
intros Hio. apply (while_rule _ _ (grown R c)); [|apply grown_refl].
intros x Hx _.
destruct (refresh_std_body_cases x)
  as [(d & new & ->) | (e & d & ->)].
- apply grown_std_step; assumption.
- apply grown_set_data; assumption.
Qed.

Lemma in_to_out_loop_grown (fuel : nat) (c : ActivationBuffer Text V) :
taps_related trace R ->
io c = io_in_to_out ->
match while (@in_to_out_short Text V) (refresh_in_to_out_body trace)
        fuel c with
| Ok _ x => grown R c x /\ in_to_out_short x = false
| Raise e x => same_config c x /\ (e <> RuntimeError -> grown R c x)
| OutOfFuel => True
end.
Proof.
intros Htaps Hio.
apply (while_rule_raise _ _ (grown R c)
         (fun e x => same_config c x /\ (e <> RuntimeError -> grown R c x)));
  [|apply grown_refl].
intros x Hx _.
destruct (refresh_in_to_out_body_cases x)
  as [(d & texts & a & b & ni & no & Ha & Hb & Hni & Hno & ->)
     | [(e & d & ->) | (d & ni & ->)]].
- apply grown_in_to_out_step; try assumption.
  eapply select2_pointwise; [|exact Hni|exact Hno].
  intros i p rx ry v w. eapply Htaps; eassumption.
- split; [apply Hx | intros _; apply grown_set_data; assumption].
- split; [apply Hx | intros H; contradiction H; reflexivity].
Qed.

(** *** The compaction *)

Lemma refresh_std_unfold (fuel : nat) (s : ActivationBuffer Text V) :
_refresh_std trace fuel s =
if Nat.eqb (length (read s)) (len (activations s))
then while (@std_short Text V) (refresh_std_body trace) fuel
       (set_activations (keep_unread (read s) (activations s)) s)
else Raise IndexError s.
Proof.
unfold _refresh_std, bind, get, lift, modify, mask_index, invert.
rewrite length_map.
destruct (Nat.eqb _ _); reflexivity.
Qed.

Lemma refresh_in_to_out_unfold (fuel : nat) (s : ActivationBuffer Text V) :
_refresh_in_to_out trace fuel s =
if Nat.eqb (length (read s)) (len (activations_in s)) then
  if Nat.eqb (length (read s)) (len (activations_out s)) then
    while (@in_to_out_short Text V) (refresh_in_to_out_body trace) fuel
      (set_activations_out (keep_unread (read s) (activations_out s))
         (set_activations_in (keep_unread (read s) (activations_in s)) s))
  else
    Raise IndexError
      (set_activations_in (keep_unread (read s) (activations_in s)) s)
else Raise IndexError s.
Proof.
unfold _refresh_in_to_out, bind, get, lift, modify, mask_index, invert.
rewrite length_map.
destruct (Nat.eqb _ (len (activations_in s))); [|reflexivity].
simpl. rewrite length_map.
destruct (Nat.eqb _ (len (activations_out s))); reflexivity.
Qed.

Lemma refresh_consistent_unfold (fuel : nat) (s : ActivationBuffer Text V) :
consistent s ->
refresh trace fuel s =
match io s with
| io_in | io_out =>
    while (@std_short Text V) (refresh_std_body trace) fuel (compact s)
| io_in_to_out =>
    while (@in_to_out_short Text V) (refresh_in_to_out_body trace) fuel
      (compact s)
end.
Proof.
unfold consistent, refresh, compact, bind, get. intros H.
destruct (io s); simpl.
- rewrite refresh_std_unfold, H, Nat.eqb_refl. reflexivity.
- rewrite refresh_std_unfold, H, Nat.eqb_refl. reflexivity.
- destruct H as [Hi Ho].
  rewrite refresh_in_to_out_unfold, <- Hi, <- Ho, Nat.eqb_refl.
  reflexivity.
Qed.

(** A refill that starts from a consistent buffer ends, whether it
  returns or raises, in a buffer grown from the compacted one; when it
  returns the target occupancy is met. *)
Lemma refresh_grown (fuel : nat) (s : ActivationBuffer Text V) :
taps_related trace R -> consistent s ->
match refresh trace fuel s with
| Ok _ x =>
    grown R (compact s) x /\ (target x <= Z.of_nat (len (buffer x)))%Z
| Raise e x => e <> RuntimeError -> grown R (compact s) x
| OutOfFuel => True
end.
Proof.
intros Htaps Hs. rewrite (refresh_consistent_unfold fuel s Hs).
assert (Hio : io (compact s) = io s)
  by (unfold compact; destruct (io s) eqn:E; simpl; assumption).
destruct (io s) eqn:E.
- assert (Hstd : io (compact s) <> io_in_to_out) by congruence.
  assert (H := std_loop_grown fuel (compact s) Hstd).
  destruct (while _ _ _ _) as [[] x|e x|]; auto.
  destruct H as [Hg Hshort]. split; [assumption|].
  unfold std_short in Hshort. apply Z.ltb_ge in Hshort.
  destruct Hg as [[Hc _] _]. unfold buffer. rewrite Hc, Hio. assumption.
- assert (Hstd : io (compact s) <> io_in_to_out) by congruence.
  assert (H := std_loop_grown fuel (compact s) Hstd).
  destruct (while _ _ _ _) as [[] x|e x|]; auto.
  destruct H as [Hg Hshort]. split; [assumption|].
  unfold std_short in Hshort. apply Z.ltb_ge in Hshort.
  destruct Hg as [[Hc _] _]. unfold buffer. rewrite Hc, Hio. assumption.
- assert (H := in_to_out_loop_grown fuel (compact s) Htaps Hio).
  destruct (while _ _ _ _) as [[] x|e x|]; [|apply H|exact I].
  destruct H as [Hg Hshort]. split; [assumption|].
  unfold in_to_out_short in Hshort. apply Z.ltb_ge in Hshort.
  destruct Hg as [[Hc _] _]. unfold buffer. rewrite Hc, Hio. assumption.
Qed.

End Cycle.

(** ** Serving a batch *)


Lemma taps_related_any : taps_related trace (@any V).
Proof. unfold taps_related, any; auto. Qed.

Lemma sum_invert_zeros (n : nat) : sum (invert (zeros n)) = n.
Proof.
  unfold sum, invert, zeros. induction n; simpl; auto.
Qed.

Lemma select_unread_flags (r : list bool) :
  select r (invert r) = zeros (sum (invert r)).
Proof.
  unfold sum, invert, zeros. induction r as [|[] r IH]; simpl; auto.
  rewrite IH; reflexivity.
Qed.

Lemma compact_io (s : ActivationBuffer Text V) : io (compact s) = io s.
Proof. unfold compact; destruct (io s) eqn:E; simpl; assumption. Qed.

Lemma compact_buffer (s : ActivationBuffer Text V) :
  buffer (compact s) = keep_unread (read s) (buffer s).
Proof.
  unfold buffer. rewrite compact_io. unfold compact.
  destruct (io s); reflexivity.
Qed.

Lemma consistent_buffer (s : ActivationBuffer Text V) :
  consistent s -> length (read s) = len (buffer s).
Proof.
  unfold consistent, buffer. destruct (io s); tauto.
Qed.

Lemma compact_len (s : ActivationBuffer Text V) :
  consistent s -> len (buffer (compact s)) = unread s.
Proof.
  intros H. rewrite compact_buffer. unfold len, keep_unread; simpl.
  apply select_length. unfold invert. rewrite length_map.
  apply consistent_buffer; assumption.
Qed.

Lemma same_config_compact (s x : ActivationBuffer Text V) :
  same_config (compact s) x -> same_config s x.
Proof.
  unfold same_config, compact. destruct (io s) eqn:E; simpl;
    rewrite ?E; tauto.
Qed.

Lemma threshold_le_target (s : ActivationBuffer Text V) :
  (0 < threshold s)%Z -> (threshold s <= target s)%Z.
Proof.
  unfold threshold, target. intros H.
  assert (0 <= n_ctxs s * ctx_len s)%Z.
  { destruct (Z.lt_ge_cases (n_ctxs s * ctx_len s) 0) as [Hneg|]; auto.
    assert (n_ctxs s * ctx_len s / 2 < 0)%Z
      by (apply Z.div_lt_upper_bound; lia).
    lia. }
  apply Z.div_le_upper_bound; lia.
Qed.

Lemma same_config_levels (s s' : ActivationBuffer Text V) :
  same_config s s' -> threshold s' = threshold s /\ target s' = target s.
Proof.
  intros (_ & Hn & Hc & _). unfold threshold, target.
  rewrite Hn, Hc. auto.
Qed.

(** After a refill check that returns, the buffer is consistent and at
    least at the threshold; if the refill ran, it is at the target, every
    flag is false, and the vectors are the unconsumed ones of before
    followed by new ones. *)
Lemma refill_check_spec (fuel : nat) (s s1 : ActivationBuffer Text V) :
  consistent s ->
  refill_check trace fuel s = Ok tt s1 ->
  consistent s1 /\ same_config s s1 /\
  (threshold s <= Z.of_nat (unread s1))%Z /\
  (((Z.of_nat (unread s) < threshold s)%Z /\
    refresh trace fuel s = Ok tt s1 /\
    grown (@any V) (compact s) s1 /\
    read s1 = zeros (len (buffer s1)) /\
    (target s <= Z.of_nat (unread s1))%Z) \/
   ((threshold s <= Z.of_nat (unread s))%Z /\ s1 = s)).
Proof.
  intros Hs Hrc. assert (Hfit := refill_check_Ok_fits fuel s s1 Hrc).
  destruct (Z.lt_ge_cases (Z.of_nat (unread s)) (threshold s)) as [Hlt|Hge].
  - rewrite refill_check_run in Hrc by assumption.
    assert (H := refresh_grown (@any V) fuel s taps_related_any Hs).
    rewrite Hrc in H. destruct H as [Hg Htarget].
    pose proof Hg as
      (Hc & _ & _ & _ & (n & ni & no & Hn & Hni & Hno & HR) & Hread).
    apply same_config_compact in Hc.
    destruct (same_config_levels s s1 Hc) as [Hth Htg].
    assert (Hzeros : read s1 = zeros (len (buffer s1))).
    { destruct Hread as [(_ & Ha & Hi & Ho) | Hz]; [|assumption].
      exfalso.
      assert (Hb : buffer s1 = buffer (compact s)).
      { unfold buffer. destruct Hc as [Hc _].
        rewrite Hc, compact_io. destruct (io s); assumption. }
      rewrite Hb, compact_len, Htg in Htarget by assumption.
      assert (threshold s <= target s)%Z
        by (apply threshold_le_target; lia).
      lia. }
    assert (Hun : unread s1 = len (buffer s1)).
    { unfold unread. rewrite Hzeros at 1. apply sum_invert_zeros. }
    assert (Hcons : consistent s1).
    { pose proof Hs as Hs'. unfold consistent in Hs' |- *.
      destruct Hc as [Hc _]. rewrite Hc.
      assert (Hl : length (read s1) = len (buffer s1)).
      { rewrite Hzeros at 1. unfold zeros. apply repeat_length. }
      unfold buffer in Hl. rewrite Hc in Hl.
      destruct (io s) eqn:E; try assumption.
      split; [assumption|]. rewrite Hl.
      unfold len. rewrite Hni, Hno, !length_app.
      rewrite (Forall2_length HR). f_equal.
      unfold compact; rewrite E; simpl.
      destruct Hs' as [Hi Ho].
      rewrite !select_length;
        unfold invert; rewrite ?length_map; auto. }
    split; [assumption|]. split; [assumption|]. split.
    + rewrite Hun. rewrite Htg in Htarget.
      assert (threshold s <= target s)%Z
        by (apply threshold_le_target; lia).
      lia.
    + left. rewrite Hun, <- Htg. auto.
  - rewrite refill_check_skip in Hrc by assumption.
    injection Hrc as <-.
    split; [assumption|]. split; [unfold same_config; tauto|].
    split; [assumption|]. right; auto.
Qed.



Lemma gather_vectors_at (x y : Tensor V) (idxs : list nat) :
  gather x idxs = Some y <-> vectors_at x idxs y.
Proof.
  unfold gather, vectors_at. split.
  - destruct (take (rows x) idxs) as [vs|] eqn:E; [|discriminate].
    simpl. intros H; injection H as <-. simpl.
    split; [reflexivity | apply take_spec; assumption].
  - intros [Hf Hv]. apply take_spec in Hv. rewrite Hv. simpl.
    destruct y as [f r]; simpl in *. congruence.
Qed.

Lemma gather_in_range (x : Tensor V) (idxs : list nat) :
  Forall (fun i => i < len x) idxs -> exists y, gather x idxs = Some y.
Proof.
  intros H. destruct (take_in_range (rows x) idxs H) as [vs [Hv _]].
  unfold gather. rewrite Hv. simpl. eauto.
Qed.

(** What [__next__] does once the refill check and the draw are done. *)
Lemma next_after_draw (fuel : nat) (randperm : nat -> list nat)
    (s s1 : ActivationBuffer Text V) (idxs : list nat) :
  refill_check trace fuel s = Ok tt s1 ->
  draw randperm s1 = Ok idxs s1 ->
  consistent s1 ->
  (forall i, In i idxs -> nth_error (read s1) i = Some false) ->
  exists b,
    __next__ trace fuel randperm s =
      Ok b (set_read (index_put (read s1) idxs) s1) /\
    returns s1 idxs b.
Proof.
  intros Hrc Hdraw Hcons Hun.
  assert (Hrange : Forall (fun i => i < length (read s1)) idxs).
  { apply Forall_forall; intros i Hi.
    apply nth_error_Some. rewrite (Hun i Hi). discriminate. }
  unfold __next__, bind. rewrite Hrc, Hdraw. unfold modify, get, lift.
  unfold returns, consistent in *. simpl.
  destruct (io s1).
  - rewrite Hcons in Hrange.
    destruct (gather_in_range _ _ Hrange) as [x Hx]. rewrite Hx.
    exists (Single x). split; [reflexivity|].
    exists x. split; [reflexivity | apply gather_vectors_at; assumption].
  - rewrite Hcons in Hrange.
    destruct (gather_in_range _ _ Hrange) as [x Hx]. rewrite Hx.
    exists (Single x). split; [reflexivity|].
    exists x. split; [reflexivity | apply gather_vectors_at; assumption].
  - destruct Hcons as [Hi Ho].
    assert (Hri := Hrange). rewrite Hi in Hri. rewrite Ho in Hrange.
    destruct (gather_in_range _ _ Hri) as [x Hx].
    destruct (gather_in_range _ _ Hrange) as [y Hy].
    rewrite Hx, Hy. exists (Pair x y). split; [reflexivity|].
    exists x, y.
    split; [reflexivity | split; apply gather_vectors_at; assumption].
Qed.

(** A call that returns went through a refill check and a draw. *)
Lemma next_inv (fuel : nat) (randperm : nat -> list nat)
    (s s' : ActivationBuffer Text V) (b : Batch V) :
  __next__ trace fuel randperm s = Ok b s' ->
  exists s1 idxs,
    refill_check trace fuel s = Ok tt s1 /\
    draw randperm s1 = Ok idxs s1 /\
    s' = set_read (index_put (read s1) idxs) s1.
Proof.
  unfold __next__, bind. intros H.
  destruct (refill_check trace fuel s) as [[] s1|e s1|]; try discriminate.
  destruct (draw randperm s1) as [idxs s2|e s2|] eqn:Hd; try discriminate.
  destruct (draw_state _ _ _ _ Hd) as [-> _].
  exists s1, idxs. split; [reflexivity|]. split; [assumption|].
  unfold modify, get, lift in H. simpl in H.
  destruct (io s1).
  - destruct (gather _ _); [|discriminate]. injection H as _ <-; auto.
  - destruct (gather _ _); [|discriminate]. injection H as _ <-; auto.
  - destruct (gather (activations_in s1) _); [|discriminate].
    destruct (gather (activations_out s1) _); [|discriminate].
    injection H as _ <-; auto.
Qed.

(** C1, as the code has it.  From a buffer whose flags are as long as its
    vectors, with a threshold (half of [n_ctxs * ctx_len]) that fits 64
    bits: the refill runs exactly when the unread count is below the
    threshold; when it raises, [__next__] raises with it, returns nothing
    and leaves the buffer as the refill left it; when the refill check
    completes and leaves a number of unread vectors other than one, the
    call returns; the positions it draws are distinct, all unread,
    [min(out_batch_size, unread)] in number, the prefix of a permutation of
    the unread positions; exactly those are marked read; and the batch
    holds their vectors, from both buffers at the same positions in
    dual-tap mode. *)
Theorem next_batch_contract (fuel : nat) (randperm : nat -> list nat)
    (s : ActivationBuffer Text V) :
  consistent s ->
  shuffles randperm ->
  (0 <= out_batch_size s)%Z ->
  (- 2 ^ 63 <= threshold s < 2 ^ 63)%Z ->
  ((threshold s <= Z.of_nat (unread s))%Z ->
   refill_check trace fuel s = Ok tt s) /\
  ((Z.of_nat (unread s) < threshold s)%Z ->
   refill_check trace fuel s = refresh trace fuel s) /\
  (forall e s1,
     refill_check trace fuel s = Raise e s1 ->
     (Z.of_nat (unread s) < threshold s)%Z /\
     refresh trace fuel s = Raise e s1 /\
     __next__ trace fuel randperm s = Raise e s1) /\
  (forall s1,
     refill_check trace fuel s = Ok tt s1 ->
     unread s1 <> 1 ->
     exists idxs b,
       __next__ trace fuel randperm s =
         Ok b (set_read (index_put (read s1) idxs) s1) /\
       take (nonzero (invert (read s1)))
         (py_prefix (out_batch_size s1) (randperm (unread s1))) =
         Some idxs /\
       NoDup idxs /\
       length idxs = Nat.min (Z.to_nat (out_batch_size s)) (unread s1) /\
       (forall i, In i idxs -> nth_error (read s1) i = Some false) /\
       (forall i, nth_error (index_put (read s1) idxs) i = Some true <->
                  nth_error (read s1) i = Some true \/ In i idxs) /\
       returns s1 idxs b).
Proof.
  intros Hs Hperm Hobs Hfit.
  split; [|split; [|split]].
  - intros Hge. apply refill_check_skip; assumption.
  - intros Hlt. apply refill_check_run; assumption.
  - intros e s1 Hrc.
    destruct (Z.lt_ge_cases (Z.of_nat (unread s)) (threshold s))
      as [Hlt|Hge].
    + split; [assumption|]. split.
      * rewrite <- (refill_check_run fuel s Hfit Hlt). assumption.
      * unfold __next__, bind. rewrite Hrc. reflexivity.
    + rewrite (refill_check_skip fuel s Hfit Hge) in Hrc. discriminate.
  - intros s1 Hrc Hne.
    destruct (refill_check_spec fuel s s1 Hs Hrc)
      as (Hs1 & Hcfg & _ & Hcase).
    destruct (draw_spec randperm s1 Hperm Hne)
      as (idxs & Hdraw & Hnd & Hun & Hlen).
    destruct (next_after_draw fuel randperm s s1 idxs Hrc Hdraw Hs1 Hun)
      as (b & Hnext & Hret).
    exists idxs, b.
    assert (Hobs1 : out_batch_size s1 = out_batch_size s)
      by (destruct Hcfg as (_ & _ & _ & _ & H); exact H).
    split; [assumption|]. split.
    { unfold draw, bind, get, lift in Hdraw.
      rewrite squeeze_vector in Hdraw
        by (rewrite unread_nonzero; assumption).
      simpl in Hdraw. rewrite unread_nonzero in Hdraw.
      destruct (take _ _); congruence. }
    split; [assumption|]. split.
    { rewrite <- Hobs1. apply Hlen. rewrite Hobs1. assumption. }
    split; [assumption|]. split; [|assumption].
    intros i. rewrite index_put_nth. split.
    + intros [H | [H _]]; auto.
    + intros [H | H]; auto. right. split; [assumption|].
      apply nth_error_Some. rewrite (Hun i H). discriminate.
Qed.

(** C5, as the code has it.  From a buffer whose flags are as long as its
    vectors, a call of [__next__] that returns has, right after its refill check and
    before sampling, at least the threshold of unread vectors; at the
    return the unread count is that number less the
    [min(out_batch_size, unread)] vectors served, hence at least the
    threshold less [out_batch_size]. *)
Theorem occupancy_after_next (fuel : nat) (randperm : nat -> list nat)
    (s s' : ActivationBuffer Text V) (b : Batch V) :
  consistent s ->
  shuffles randperm ->
  (0 <= out_batch_size s)%Z ->
  __next__ trace fuel randperm s = Ok b s' ->
  exists s1,
    refill_check trace fuel s = Ok tt s1 /\
    (threshold s <= Z.of_nat (unread s1))%Z /\
    unread s' =
      unread s1 - Nat.min (Z.to_nat (out_batch_size s)) (unread s1) /\
    (threshold s - out_batch_size s <= Z.of_nat (unread s'))%Z.
Proof.
  intros Hs Hperm Hobs Hnext.
  destruct (next_inv _ _ _ _ _ Hnext) as (s1 & idxs & Hrc & Hdraw & ->).
  destruct (refill_check_spec fuel s s1 Hs Hrc)
    as (Hs1 & Hcfg & Hth & _).
  destruct (draw_state _ _ _ _ Hdraw) as [_ Hne].
  destruct (draw_spec randperm s1 Hperm Hne)
    as (idxs' & Hdraw' & Hnd & Hun & Hlen).
  assert (idxs' = idxs) by congruence. subst idxs'.
  assert (Hobs1 : out_batch_size s1 = out_batch_size s)
    by (destruct Hcfg as (_ & _ & _ & _ & H); exact H).
  rewrite Hobs1 in Hlen. specialize (Hlen Hobs).
  assert (Hsum := unread_index_put s1 idxs Hnd Hun).
  exists s1. split; [assumption|]. split; [assumption|].
  split; lia.
Qed.

(** *** Exhaustion *)

Lemma compact_fields (s : ActivationBuffer Text V) :
  data (compact s) = data s /\ read (compact s) = read s /\
  same_config s (compact s).
Proof.
  unfold compact, same_config. destruct (io s) eqn:E; simpl; rewrite ?E;
    tauto.
Qed.

(** C7, as the code has it.  When the text source holds fewer than
    [in_batch_size] texts and the unconsumed vectors are fewer than the target
    [n_ctxs * ctx_len], [refresh] on a buffer whose flags are as long as
    its vectors raises the end-of-stream StopIteration; it leaves the
    buffer compacted to its unconsumed vectors, with nothing appended,
    and the text source empty. *)
Theorem refresh_exhausted (fuel : nat) (s : ActivationBuffer Text V) :
  consistent s ->
  (Z.of_nat (length (data s)) < in_batch_size s)%Z ->
  (Z.of_nat (unread s) < target s)%Z ->
  refresh trace (S fuel) s =
    Raise end_of_stream (set_data [] (compact s)) /\
  rows (buffer (set_data [] (compact s))) =
    select (rows (buffer s)) (invert (read s)) /\
  (io s = io_in_to_out ->
   rows (activations_out (set_data [] (compact s))) =
     select (rows (activations_out s)) (invert (read s))).
Proof.
  intros Hs Hdata Hlow.
  assert (Hc := compact_len s Hs).
  destruct (compact_fields s) as (Hd & _ & Hio & Hn & Hl & Hib & _).
  assert (Hshort : length (data (compact s)) <
                   Z.to_nat (in_batch_size (compact s)))
    by (rewrite Hd, Hib; lia).
  assert (Htarget : target (compact s) = target s)
    by (unfold target; rewrite Hn, Hl; reflexivity).
  split; [|split].
  - rewrite (refresh_consistent_unfold (S fuel) s Hs).
    unfold buffer in Hc. rewrite Hio in Hc.
    destruct (io s) eqn:E; simpl.
    + unfold std_short at 1. rewrite Hc, Htarget.
      destruct (Z.ltb_spec (Z.of_nat (unread s)) (target s)); [|lia].
      unfold bind. rewrite (refresh_std_body_short _ Hshort). reflexivity.
    + unfold std_short at 1. rewrite Hc, Htarget.
      destruct (Z.ltb_spec (Z.of_nat (unread s)) (target s)); [|lia].
      unfold bind. rewrite (refresh_std_body_short _ Hshort). reflexivity.
    + unfold in_to_out_short at 1. rewrite Hc, Htarget.
      destruct (Z.ltb_spec (Z.of_nat (unread s)) (target s)); [|lia].
      unfold bind. rewrite (refresh_in_to_out_body_short _ Hshort).
      reflexivity.
  - change (buffer (set_data [] (compact s))) with (buffer (compact s)).
    rewrite compact_buffer. reflexivity.
  - intros E. unfold compact. rewrite E. reflexivity.
Qed.

(** *** Alignment of the two buffers *)

Section Alignment.
Variable R : V -> V -> Prop.
Hypothesis Htaps : taps_related trace R.











End Alignment.

(** *** Resetting the flags against extending them *)

Lemma zeros_app (n m : nat) : zeros (n + m) = zeros n ++ zeros m.
Proof. unfold zeros. apply repeat_app. Qed.

Lemma zeros_append (x : Tensor V) (new : list V) :
  zeros (len (append x new)) = zeros (len x) ++ zeros (length new).
Proof. unfold len, append; simpl. rewrite length_app. apply zeros_app. Qed.

Ltac agree_by_computation E :=
  unfold same_config, buffer, set_read, set_activations, set_activations_in,
    set_activations_out, set_data, len, append, zeros in *;
  simpl; rewrite ?E; subst; simpl;
  rewrite ?length_app, ?repeat_app; auto 10.

(** One ingestion gives the same buffer whether it resets flags of any
    kind or extends flags that are all false; when it raises, both are as
    they were, the text source apart, or both have the same new vectors in
    [activations_in] and none in [activations_out]. *)
Lemma ingest_agree (x : ActivationBuffer Text V) (r : list bool) :
  r = zeros (len (buffer x)) ->
  match ingest trace x, ingest_extend trace (set_read r x) with
  | Ok _ x', Ok _ y' =>
      x' = y' /\ read x' = zeros (len (buffer x')) /\ same_config x x'
  | Raise e x', Raise e' y' =>
      e = e' /\
      exists d,
        (x' = set_data d x /\ y' = set_data d (set_read r x)) \/
        (e = RuntimeError /\ io x = io_in_to_out /\
         exists new,
           x' = set_activations_in (append (activations_in x) new)
                  (set_data d x) /\
           y' = set_activations_in (append (activations_in x) new)
                  (set_data d (set_read r x)))
  | _, _ => False
  end.
Proof.
  intros Hr. unfold ingest, ingest_extend, bind, get. simpl.
  unfold buffer in Hr.
  destruct (io x) eqn:E.
  - unfold refresh_std_body, refresh_std_body_extend, bind, text_batch,
      get, lift, modify. simpl.
    destruct (pull _ _) as [[texts|] d]; [|eauto 8]. simpl. rewrite E.
    destruct (unwrap _) as [h|]; [|eauto 8].
    unfold mask_index2.
    destruct (select2 _ _) as [new|]; [|simpl; eauto 8]. simpl.
    unfold cat. simpl.
    destruct (Z.eqb _ _); [|eauto 8].
    agree_by_computation E.
  - unfold refresh_std_body, refresh_std_body_extend, bind, text_batch,
      get, lift, modify. simpl.
    destruct (pull _ _) as [[texts|] d]; [|eauto 8]. simpl. rewrite E.
    destruct (unwrap _) as [h|]; [|eauto 8].
    unfold mask_index2.
    destruct (select2 _ _) as [new|]; [|simpl; eauto 8]. simpl.
    unfold cat. simpl.
    destruct (Z.eqb _ _); [|eauto 8].
    agree_by_computation E.
  - unfold refresh_in_to_out_body, refresh_in_to_out_body_extend, bind,
      text_batch, get, lift, modify. simpl.
    destruct (pull _ _) as [[texts|] d]; [|eauto 8]. simpl.
    destruct (unwrap (submodule_input _)) as [hi|]; [|eauto 8].
    destruct (unwrap (submodule_output _)) as [ho|]; [|eauto 8].
    unfold mask_index2.
    destruct (select2 (cells hi) _) as [new_in|]; [|simpl; eauto 8].
    destruct (select2 (cells ho) _) as [new_out|]; [|simpl; eauto 8].
    simpl. unfold cat. simpl.
    destruct (Z.eqb (feats (activations_in x)) _); [|eauto 8]. simpl.
    destruct (Z.eqb (feats (activations_out x)) _).
    + agree_by_computation E.
    + split; [reflexivity|]. exists d. right.
      split; [reflexivity|]. split; [reflexivity|].
      exists new_in. split; reflexivity.
Qed.

Lemma set_read_same (x : ActivationBuffer Text V) : set_read (read x) x = x.
Proof. destruct x; reflexivity. Qed.

Lemma ingest_agree_from (s x y : ActivationBuffer Text V) :
  consistent s -> agree_from s x y ->
  match ingest trace x, ingest_extend trace y with
  | Ok _ x', Ok _ y' => x' = y' /\ agree_from s x' y'
  | Raise e x', Raise e' y' => e = e' /\ agree_raised e s x' y'
  | _, _ => False
  end.
Proof.
  intros Hs [Hcfg [[<- Hread] | (d & -> & ->)]].
  - assert (H := ingest_agree x (read x) Hread).
    rewrite set_read_same in H.
    destruct (ingest trace x) as [[] x'|e x'|],
             (ingest_extend trace x) as [[] y'|e' y'|]; try contradiction.
    + destruct H as (<- & Hz & Hc). split; [reflexivity|].
      split; [|left; auto].
      unfold same_config in *. intuition congruence.
    + destruct H as (<- & d & [(-> & ->) | (-> & Hio & new & -> & ->)]);
        (split; [reflexivity|]).
      * left. split; [exact Hcfg | left; auto].
      * right. split; [reflexivity|]. split.
        { destruct Hcfg as (Hc & _). congruence. }
        exists (set_data d x), (set_data d x), new.
        split; [|split; reflexivity].
        split; [exact Hcfg | left; auto].
  - assert (Hz : zeros (unread s) =
                 zeros (len (buffer (set_data d (compact s))))).
    { change (buffer (set_data d (compact s))) with (buffer (compact s)).
      rewrite compact_len by assumption. reflexivity. }
    assert (H := ingest_agree (set_data d (compact s)) _ Hz).
    change (set_read (zeros (unread s)) (set_data d (compact s)))
      with (set_data d (set_read (zeros (unread s)) (compact s))) in H.
    destruct (ingest trace (set_data d (compact s))) as [[] x'|e x'|],
             (ingest_extend trace
                (set_data d (set_read (zeros (unread s)) (compact s))))
               as [[] y'|e' y'|]; try contradiction.
    + destruct H as (<- & Hr & Hc). split; [reflexivity|].
      split; [|left; auto].
      unfold same_config in *. intuition congruence.
    + destruct H as (<- & d' & [(-> & ->) | (-> & Hio & new & -> & ->)]);
        (split; [reflexivity|]).
      * left. split; [exact Hcfg | right; exists d'; auto].
      * right. split; [reflexivity|]. split.
        { destruct Hcfg as (Hc & _). simpl in Hio.
          rewrite compact_io in Hio. exact Hio. }
        exists (set_data d' (compact s)),
               (set_data d' (set_read (zeros (unread s)) (compact s))),
               new.
        split; [|split; reflexivity].
        split; [exact Hcfg | right; exists d'; auto].
Qed.

Lemma while_agree (s : ActivationBuffer Text V)
    (cond : ActivationBuffer Text V -> bool) (body body' : M Text V unit) :
  (forall x y, agree_from s x y -> cond y = cond x) ->
  (forall x y, agree_from s x y ->
     match body x, body' y with
     | Ok _ x', Ok _ y' => agree_from s x' y'
     | Raise e x', Raise e' y' => e = e' /\ agree_raised e s x' y'
     | _, _ => False
     end) ->
  forall fuel x y, agree_from s x y ->
    match while cond body fuel x, while cond body' fuel y with
    | Ok _ x', Ok _ y' => agree_from s x' y' /\ cond x' = false
    | Raise e x', Raise e' y' => e = e' /\ agree_raised e s x' y'
    | OutOfFuel, OutOfFuel => True
    | _, _ => False
    end.
Proof.
  intros Hcond Hbody. induction fuel as [|fuel IH]; intros x y Hxy; simpl;
    rewrite (Hcond x y Hxy); destruct (cond x) eqn:Hc; auto.
  unfold bind. specialize (Hbody x y Hxy).
  destruct (body x) as [[] x'|e x'|], (body' y) as [[] y'|e' y'|];
    try contradiction; auto.
  apply IH; assumption.
Qed.

Lemma agree_from_short (s x y : ActivationBuffer Text V) :
  agree_from s x y ->
  std_short y = std_short x /\ in_to_out_short y = in_to_out_short x.
Proof.
  intros [_ [[<- _] | (d & -> & ->)]]; auto.
Qed.

Lemma refresh_extend_unfold (fuel : nat) (s : ActivationBuffer Text V) :
  consistent s ->
  refresh_extend trace fuel s =
  match io s with
  | io_in | io_out =>
      while (@std_short Text V) (refresh_std_body_extend trace) fuel
        (set_read (zeros (unread s)) (compact s))
  | io_in_to_out =>
      while (@in_to_out_short Text V) (refresh_in_to_out_body_extend trace)
        fuel (set_read (zeros (unread s)) (compact s))
  end.
Proof.
  assert (Hsel : select (read s) (map negb (read s)) =
                 zeros (sum (map negb (read s))))
    by apply select_unread_flags.
  unfold consistent, refresh_extend, refresh_std_extend,
    refresh_in_to_out_extend, compact, bind, get, lift, modify, mask_index,
    unread, invert.
  intros H. destruct (io s) eqn:E; simpl; rewrite ?length_map.
  - rewrite H, Nat.eqb_refl, Hsel. reflexivity.
  - rewrite H, Nat.eqb_refl, Hsel. reflexivity.
  - destruct H as [Hi Ho].
    rewrite <- Hi, Nat.eqb_refl. simpl. rewrite ?length_map.
    rewrite <- Ho, Nat.eqb_refl, Hsel. reflexivity.
Qed.

(** C8. Started on a buffer whose flags are as long as its vectors, the
    refill that resets the flags to all false after each append and the
    refill that compacts the flags and extends them with false entries
    behave alike: one ingestion leads both to one and the same buffer; so
    the two refills return or raise together, with identical buffers as
    soon as one append has taken place, and before that with buffers that
    differ in the flags alone; a refill that returns from below the target
    gives identical buffers.  (When [t.cat] on [activations_out] raises,
    the append to [activations_in] done, the two stand as before that
    ingestion with the same vectors added on the input side.) *)
Theorem reset_equals_extend (fuel : nat) (s : ActivationBuffer Text V) :
  consistent s ->
  (forall x y, agree_from s x y ->
     match ingest trace x, ingest_extend trace y with
     | Ok _ x', Ok _ y' => x' = y'
     | Raise e x', Raise e' y' => e = e' /\ agree_raised e s x' y'
     | _, _ => False
     end) /\
  match refresh trace fuel s, refresh_extend trace fuel s with
  | Ok _ x, Ok _ y =>
      agree_from s x y /\ ((Z.of_nat (unread s) < target s)%Z -> x = y)
  | Raise e x, Raise e' y => e = e' /\ agree_raised e s x y
  | OutOfFuel, OutOfFuel => True
  | _, _ => False
  end.
Proof.
  intros Hs. split.
  - intros x y Hxy. assert (H := ingest_agree_from s x y Hs Hxy).
    destruct (ingest trace x) as [[] x'|e x'|],
             (ingest_extend trace y) as [[] y'|e' y'|]; tauto.
  - assert (Hstart : agree_from s (compact s)
                       (set_read (zeros (unread s)) (compact s))).
    { split; [apply compact_fields|]. right. exists (data (compact s)).
      split; destruct (compact s); reflexivity. }
    assert (Hlen := compact_len s Hs).
    assert (Hfinal : forall x y,
              agree_from s x y ->
              (Z.of_nat (len (buffer x)) <? target x)%Z = false ->
              (Z.of_nat (unread s) < target s)%Z -> x = y).
    { intros x y [Hcfg [[Hxy _] | (d & -> & ->)]] Hc Hlow; [assumption|].
      exfalso. apply Z.ltb_ge in Hc.
      change (buffer (set_data d (compact s))) with (buffer (compact s))
        in Hc.
      change (target (set_data d (compact s))) with (target (compact s))
        in Hc.
      destruct (same_config_levels s (compact s))
        as [_ Ht]; [apply compact_fields|].
      rewrite Hlen, Ht in Hc. lia. }
    rewrite (refresh_consistent_unfold fuel s Hs),
            (refresh_extend_unfold fuel s Hs).
    destruct (io s) eqn:E.
    + assert (H := while_agree s (@std_short Text V)
                     (refresh_std_body trace)
                     (refresh_std_body_extend trace)).
      specialize (H (fun x y Hxy => proj1 (agree_from_short s x y Hxy))).
      assert (Hbody : forall x y, agree_from s x y ->
                match refresh_std_body trace x,
                      refresh_std_body_extend trace y with
                | Ok _ x', Ok _ y' => agree_from s x' y'
                | Raise e x', Raise e' y' =>
                    e = e' /\ agree_raised e s x' y'
                | _, _ => False
                end).
      { intros x y Hxy. assert (Hi := ingest_agree_from s x y Hs Hxy).
        assert (Hx : io x = io_in)
          by (destruct Hxy as [(Hio & _) _]; congruence).
        assert (Hy : io y = io_in).
        { destruct Hxy as [_ [[<- _] | (d & _ & ->)]]; [assumption|].
          simpl. rewrite compact_io. assumption. }
        unfold ingest, ingest_extend, bind, get in Hi.
        rewrite Hx, Hy in Hi.
        destruct (refresh_std_body trace x) as [[] x'|e x'|],
                 (refresh_std_body_extend trace y) as [[] y'|e' y'|];
          tauto. }
      specialize (H Hbody fuel _ _ Hstart).
      destruct (while _ (refresh_std_body trace) _ _) as [[] x|e x|],
               (while _ (refresh_std_body_extend trace) _ _)
                 as [[] y|e' y|]; auto.
      destruct H as [Hxy Hc]. split; [assumption|].
      apply Hfinal; try assumption.
      unfold std_short in Hc. unfold buffer.
      destruct Hxy as [(Hio & _) _]. rewrite Hio, E. assumption.
    + assert (H := while_agree s (@std_short Text V)
                     (refresh_std_body trace)
                     (refresh_std_body_extend trace)).
      specialize (H (fun x y Hxy => proj1 (agree_from_short s x y Hxy))).
      assert (Hbody : forall x y, agree_from s x y ->
                match refresh_std_body trace x,
                      refresh_std_body_extend trace y with
                | Ok _ x', Ok _ y' => agree_from s x' y'
                | Raise e x', Raise e' y' =>
                    e = e' /\ agree_raised e s x' y'
                | _, _ => False
                end).
      { intros x y Hxy. assert (Hi := ingest_agree_from s x y Hs Hxy).
        assert (Hx : io x = io_out)
          by (destruct Hxy as [(Hio & _) _]; congruence).
        assert (Hy : io y = io_out).
        { destruct Hxy as [_ [[<- _] | (d & _ & ->)]]; [assumption|].
          simpl. rewrite compact_io. assumption. }
        unfold ingest, ingest_extend, bind, get in Hi.
        rewrite Hx, Hy in Hi.
        destruct (refresh_std_body trace x) as [[] x'|e x'|],
                 (refresh_std_body_extend trace y) as [[] y'|e' y'|];
          tauto. }
      specialize (H Hbody fuel _ _ Hstart).
      destruct (while _ (refresh_std_body trace) _ _) as [[] x|e x|],
               (while _ (refresh_std_body_extend trace) _ _)
                 as [[] y|e' y|]; auto.
      destruct H as [Hxy Hc]. split; [assumption|].
      apply Hfinal; try assumption.
      unfold std_short in Hc. unfold buffer.
      destruct Hxy as [(Hio & _) _]. rewrite Hio, E. assumption.
    + assert (H := while_agree s (@in_to_out_short Text V)
                     (refresh_in_to_out_body trace)
                     (refresh_in_to_out_body_extend trace)).
      specialize (H (fun x y Hxy => proj2 (agree_from_short s x y Hxy))).
      assert (Hbody : forall x y, agree_from s x y ->
                match refresh_in_to_out_body trace x,
                      refresh_in_to_out_body_extend trace y with
                | Ok _ x', Ok _ y' => agree_from s x' y'
                | Raise e x', Raise e' y' =>
                    e = e' /\ agree_raised e s x' y'
                | _, _ => False
                end).
      { intros x y Hxy. assert (Hi := ingest_agree_from s x y Hs Hxy).
        assert (Hx : io x = io_in_to_out)
          by (destruct Hxy as [(Hio & _) _]; congruence).
        assert (Hy : io y = io_in_to_out).
        { destruct Hxy as [_ [[<- _] | (d & _ & ->)]]; [assumption|].
          simpl. rewrite compact_io. assumption. }
        unfold ingest, ingest_extend, bind, get in Hi.
        rewrite Hx, Hy in Hi.
        destruct (refresh_in_to_out_body trace x) as [[] x'|e x'|],
                 (refresh_in_to_out_body_extend trace y) as [[] y'|e' y'|];
          tauto. }
      specialize (H Hbody fuel _ _ Hstart).
      destruct (while _ (refresh_in_to_out_body trace) _ _) as [[] x|e x|],
               (while _ (refresh_in_to_out_body_extend trace) _ _)
                 as [[] y|e' y|]; auto.
      destruct H as [Hxy Hc]. split; [assumption|].
      apply Hfinal; try assumption.
      unfold in_to_out_short in Hc. unfold buffer.
      destruct Hxy as [(Hio & _) _]. rewrite Hio, E. assumption.
Qed.

(** *** Serving without repetition *)

Lemma serve_step (fuel : nat) (randperm : nat -> list nat)
    (s s1 s' : ActivationBuffer Text V) (idxs : list nat) (b : Batch V) :
  consistent s -> shuffles randperm ->
  refill_check trace fuel s = Ok tt s1 ->
  draw randperm s1 = Ok idxs s1 ->
  __next__ trace fuel randperm s = Ok b s' ->
  s' = set_read (index_put (read s1) idxs) s1 /\
  consistent s1 /\ consistent s' /\ NoDup idxs /\
  (forall i, In i idxs -> nth_error (read s1) i = Some false).
Proof.
  intros Hs Hperm Hrc Hdraw Hnext.
  destruct (next_inv _ _ _ _ _ Hnext) as (s1' & idxs' & Hrc' & Hdraw' & ->).
  assert (s1' = s1) by congruence. subst s1'.
  assert (idxs' = idxs) by congruence. subst idxs'.
  destruct (refill_check_spec fuel s s1 Hs Hrc) as (Hs1 & _).
  destruct (draw_state _ _ _ _ Hdraw) as [_ Hne].
  destruct (draw_spec randperm s1 Hperm Hne)
    as (idxs' & Hdraw'' & Hnd & Hun & _).
  assert (idxs' = idxs) by congruence. subst idxs'.
  repeat (split; [assumption || reflexivity|]). split; [|auto].
  unfold consistent in *. simpl. rewrite index_put_length. exact Hs1.
Qed.

Lemma serves_consistent (fuel : nat) (s s' : ActivationBuffer Text V)
    (rps : list (nat -> list nat)) (tr : list (Served Text V)) :
  Forall shuffles rps -> serves trace fuel s rps tr s' ->
  consistent s -> consistent s'.
Proof.
  intros Hperm H;
    induction H as [s|s rp rps s1 idxs b s' tr s'' Hrc Hd Hn _ IH];
    intros Hs; [assumption|].
  inversion Hperm as [|? ? Hrp Hrps]; subst.
  apply (IH Hrps).
  apply (serve_step fuel rp s s1 s' idxs b Hs Hrp Hrc Hd Hn).
Qed.

Lemma serves_split (fuel : nat) (tr1 tr2 : list (Served Text V)) :
  forall (s s' : ActivationBuffer Text V) (rps : list (nat -> list nat)),
  serves trace fuel s rps (tr1 ++ tr2) s' ->
  exists rps1 rps2 sm,
    rps = rps1 ++ rps2 /\
    serves trace fuel s rps1 tr1 sm /\ serves trace fuel sm rps2 tr2 s'.
Proof.
  induction tr1 as [|c tr1 IH]; intros s s' rps H; simpl in H.
  - exists [], rps, s. split; [reflexivity|]. split; [constructor | exact H].
  - inversion H as [|? rp rps' s1 idxs b sn ? ? Hrc Hd Hn Hrest]; subst.
    destruct (IH _ _ _ Hrest) as (rps1 & rps2 & sm & -> & H1 & H2).
    exists (rp :: rps1), rps2, sm. split; [reflexivity|].
    split; [|exact H2]. econstructor; eassumption.
Qed.

(** Calls that follow one another without a refill draw distinct positions,
    all of them unread at the first call. *)
Lemma serves_without_refill (fuel : nat) (s s' : ActivationBuffer Text V)
    (rps : list (nat -> list nat)) (tr : list (Served Text V)) :
  Forall shuffles rps -> serves trace fuel s rps tr s' ->
  consistent s ->
  Forall (fun c => refilled c = false) tr ->
  NoDup (concat (map (@drawn Text V) tr)) /\
  (forall i, In i (concat (map (@drawn Text V) tr)) ->
             nth_error (read s) i = Some false).
Proof.
  intros Hperm H;
    induction H as [s|s rp rps s1 idxs b s' tr s'' Hrc Hd Hn _ IH];
    intros Hs Hno; simpl.
  - split; [constructor | contradiction].
  - inversion Hperm as [|? ? Hrp Hrps]; subst.
    inversion Hno as [|? ? Hc Hno']; subst. simpl in Hc.
    apply Z.ltb_ge in Hc.
    assert (Hfit := refill_check_Ok_fits fuel s s1 Hrc).
    rewrite (refill_check_skip fuel s Hfit Hc) in Hrc. injection Hrc as <-.
    destruct (serve_step fuel rp s s s' idxs b Hs Hrp
                (refill_check_skip fuel s Hfit Hc) Hd Hn)
      as (-> & _ & Hs' & Hnd & Hun).
    destruct (IH Hrps Hs' Hno') as [Hnd' Hun'].
    simpl in Hun'.
    split.
    + apply NoDup_app; try assumption.
      intros i Hi Hi'. apply Hun' in Hi'.
      apply index_put_nth_false in Hi'. tauto.
    + intros i Hi. apply in_app_or in Hi. destruct Hi as [Hi|Hi]; auto.
      apply Hun' in Hi. apply index_put_nth_false in Hi. tauto.
Qed.

Lemma serve_flags_kept (fuel : nat) (randperm : nat -> list nat)
    (s s1 s' : ActivationBuffer Text V) (idxs : list nat) (b : Batch V) :
  consistent s -> shuffles randperm ->
  refill_check trace fuel s = Ok tt s1 ->
  draw randperm s1 = Ok idxs s1 ->
  __next__ trace fuel randperm s = Ok b s' ->
  flags_kept
    (mkServed s (Z.of_nat (unread s) <? threshold s)%Z s1 idxs s').
Proof.
  intros Hs Hperm Hrc Hd Hn.
  destruct (serve_step fuel randperm s s1 s' idxs b Hs Hperm Hrc Hd Hn)
    as (-> & Hs1 & _ & Hnd & Hun).
  unfold flags_kept; simpl.
  split; [|split; [|split; [|split]]].
  - intros i Hi. split.
    + apply index_put_nth. left; assumption.
    + intros Hin. rewrite (Hun i Hin) in Hi. discriminate.
  - intros i Hi. split; [auto|].
    apply index_put_nth. right. split; [assumption|].
    apply nth_error_Some. rewrite (Hun i Hi). discriminate.
  - reflexivity.
  - intros Hc. apply Z.ltb_ge in Hc.
    rewrite (refill_check_skip fuel s
               (refill_check_Ok_fits fuel s s1 Hrc) Hc) in Hrc.
    congruence.
  - intros Hc. apply Z.ltb_lt in Hc.
    destruct (refill_check_spec fuel s s1 Hs Hrc)
      as (_ & Hcfg & _ & [(_ & _ & Hg & Hz & _) | (Hge & _)]); [|lia].
    destruct Hg as (_ & _ & _ & _ & (n & ni & no & Hn' & Hni & _) & _).
    assert (Hrows : exists new,
               rows (buffer s1) = rows (buffer (compact s)) ++ new).
    { unfold buffer. destruct Hcfg as [Hio _].
      rewrite compact_io, Hio. destruct (io s); eauto. }
    destruct Hrows as [new Hrows]. exists new.
    rewrite compact_buffer in Hrows. simpl in Hrows.
    split; [assumption|].
    rewrite Hz. unfold len. rewrite Hrows, length_app, zeros_app.
    rewrite select_length, select_unread_flags.
    + reflexivity.
    + unfold invert. rewrite length_map.
      apply consistent_buffer; assumption.
Qed.

(** C2. In every sequence of calls of [__next__] that return, from a buffer
    whose flags are as long as its vectors: during a call a set flag never
    goes back to false and its position is never drawn, the vectors stay in
    place, and a refill keeps only unconsumed vectors, their flags false
    as they were; hence over any stretch of calls of which none after the
    first refills, no position is drawn twice. *)
Theorem no_double_serving (fuel : nat) (s s' : ActivationBuffer Text V)
    (rps : list (nat -> list nat)) (tr : list (Served Text V)) :
  consistent s ->
  Forall shuffles rps ->
  serves trace fuel s rps tr s' ->
  Forall (@flags_kept Text V) tr /\
  (forall tr1 c stretch tr2,
     tr = tr1 ++ c :: stretch ++ tr2 ->
     Forall (fun c' => refilled c' = false) stretch ->
     NoDup (concat (map (@drawn Text V) (c :: stretch)))).
Proof.
  intros Hs Hperm Hrun. split.
  - clear - Hs Hperm Hrun. revert Hs.
    induction Hrun as [s|s rp rps s1 idxs b s' tr s'' Hrc Hd Hn _ IH];
      intros Hs; [constructor|].
    inversion Hperm as [|? ? Hrp Hrps]; subst.
    constructor.
    + apply (serve_flags_kept fuel rp s s1 s' idxs b); assumption.
    + apply (IH Hrps).
      apply (serve_step fuel rp s s1 s' idxs b Hs Hrp Hrc Hd Hn).
  - intros tr1 c stretch tr2 -> Hno.
    destruct (serves_split fuel tr1 _ _ _ _ Hrun)
      as (rps1 & rps23 & sm & -> & H1 & H23).
    apply Forall_app in Hperm. destruct Hperm as [Hp1 Hp23].
    assert (Hsm := serves_consistent fuel s sm rps1 tr1 Hp1 H1 Hs).
    change (c :: stretch ++ tr2) with ((c :: stretch) ++ tr2) in H23.
    destruct (serves_split fuel (c :: stretch) _ _ _ _ H23)
      as (rps2 & rps3 & sn & -> & H2 & _).
    apply Forall_app in Hp23. destruct Hp23 as [Hp2 _].
    inversion H2 as [|? rp rps' s1 idxs b sc ? ? Hrc Hd Hn Hrest]; subst.
    inversion Hp2 as [|? ? Hrp Hrps]; subst.
    destruct (serve_step fuel rp sm s1 sc idxs b Hsm Hrp Hrc Hd Hn)
      as (-> & _ & Hsc & Hnd & Hun).
    destruct (serves_without_refill fuel _ _ _ _ Hrps Hrest Hsc Hno)
      as [Hnd' Hun'].
    simpl. apply NoDup_app; try assumption.
    intros i Hi Hi'. apply Hun' in Hi'. simpl in Hi'.
    apply index_put_nth_false in Hi'. tauto.
Qed.

(** *** A refill that has nothing to ingest *)

Lemma while_done (cond : ActivationBuffer Text V -> bool)
    (body : M Text V unit) (fuel : nat) (s : ActivationBuffer Text V) :
  cond s = false -> while cond body fuel s = Ok tt s.
Proof. intros H. destruct fuel; simpl; rewrite H; reflexivity. Qed.

(** When the unconsumed vectors already meet the target, [refresh] only
    compacts the vectors: the flags stay as they were, as many as there
    were vectors before the compaction. *)
Lemma refresh_at_target (fuel : nat) (s : ActivationBuffer Text V) :
  consistent s ->
  (target s <= Z.of_nat (unread s))%Z ->
  refresh trace fuel s = Ok tt (compact s) /\
  read (compact s) = read s /\
  len (buffer (compact s)) = unread s.
Proof.
  intros Hs Hfull.
  assert (Hlen := compact_len s Hs).
  destruct (compact_fields s) as (_ & Hread & Hio & Hn & Hl & _).
  assert (Htarget : target (compact s) = target s)
    by (unfold target; rewrite Hn, Hl; reflexivity).
  split; [|split; assumption].
  rewrite (refresh_consistent_unfold fuel s Hs).
  unfold buffer in Hlen. rewrite Hio in Hlen.
  destruct (io s); apply while_done;
    unfold std_short, in_to_out_short; rewrite Hlen, Htarget;
    apply Z.ltb_ge; assumption.
Qed.

(** *** Termination of the refill *)

Lemma text_batch_uses (s s' : ActivationBuffer Text V) (texts : list Text) :
  text_batch None s = Ok texts s' ->
  length (data s') + Z.to_nat (in_batch_size s) = length (data s).
Proof.
  unfold text_batch. rewrite pull_spec.
  destruct (Nat.leb_spec (Z.to_nat (in_batch_size s)) (length (data s)));
    [|discriminate].
  intros Hok. injection Hok as _ <-. simpl. rewrite length_skipn. lia.
Qed.

Lemma refresh_std_body_uses (s : ActivationBuffer Text V) :
  (1 <= in_batch_size s)%Z ->
  match refresh_std_body trace s with
  | Ok _ s' => length (data s') < length (data s)
  | Raise _ _ => True
  | OutOfFuel => False
  end.
Proof.
  intros Hb. unfold refresh_std_body, bind, get, lift, modify.
  destruct (text_batch None s) as [texts s1|e s1|] eqn:Ht; auto.
  - apply text_batch_uses in Ht.
    destruct (unwrap _); auto. destruct (mask_index2 _ _); auto.
    destruct (cat _ _); auto. simpl. lia.
  - unfold text_batch in Ht. destruct (pull _ _) as [[?|] ?]; discriminate.
Qed.

Lemma refresh_in_to_out_body_uses (s : ActivationBuffer Text V) :
  (1 <= in_batch_size s)%Z ->
  match refresh_in_to_out_body trace s with
  | Ok _ s' => length (data s') < length (data s)
  | Raise _ _ => True
  | OutOfFuel => False
  end.
Proof.
  intros Hb. unfold refresh_in_to_out_body, bind, get, lift, modify.
  destruct (text_batch None s) as [texts s1|e s1|] eqn:Ht; auto.
  - apply text_batch_uses in Ht.
    destruct (unwrap (submodule_input _)); auto.
    destruct (unwrap (submodule_output _)); auto.
    destruct (mask_index2 _ _); auto. destruct (mask_index2 _ _); auto.
    destruct (cat _ _); auto. simpl.
    destruct (cat _ _); auto. simpl. lia.
  - unfold text_batch in Ht. destruct (pull _ _) as [[?|] ?]; discriminate.
Qed.

(** With an ingestion batch of at least one text, a refill given more fuel
    than there are texts left returns or raises. *)
Lemma refresh_total (fuel : nat) (s : ActivationBuffer Text V) :
  consistent s ->
  (1 <= in_batch_size s)%Z ->
  length (data s) < fuel ->
  refresh trace fuel s <> OutOfFuel.
Proof.
  intros Hs Hb Hfuel. rewrite (refresh_consistent_unfold fuel s Hs).
  destruct (compact_fields s) as (Hd & _ & _ & _ & _ & Hib & _).
  assert (Hkeep : forall (cond : ActivationBuffer Text V -> bool) body,
            (forall x, (1 <= in_batch_size x)%Z ->
               match body x with
               | Ok _ x' =>
                   length (data x') < length (data x) /\
                   in_batch_size x' = in_batch_size x
               | Raise _ _ => True
               | OutOfFuel => False
               end) ->
            forall f x, (1 <= in_batch_size x)%Z -> length (data x) < f ->
              while cond body f x <> OutOfFuel).
  { intros cond body Hbody. induction f as [|f IH]; intros x Hx Hf; [lia|].
    simpl. destruct (cond x); [|discriminate].
    unfold bind. specialize (Hbody x Hx).
    destruct (body x) as [[] x'|e x'|]; [|discriminate|contradiction].
    destruct Hbody as [Hlt Heq]. apply IH; [rewrite Heq; assumption | lia]. }
  destruct (io s).
  - apply Hkeep; [|rewrite Hib; assumption|rewrite Hd; assumption].
    intros x Hx. assert (H := refresh_std_body_uses x Hx).
    destruct (refresh_std_body_cases x) as [(d & new & E) | (e & d & E)];
      rewrite E in *; simpl; auto.
  - apply Hkeep; [|rewrite Hib; assumption|rewrite Hd; assumption].
    intros x Hx. assert (H := refresh_std_body_uses x Hx).
    destruct (refresh_std_body_cases x) as [(d & new & E) | (e & d & E)];
      rewrite E in *; simpl; auto.
  - apply Hkeep; [|rewrite Hib; assumption|rewrite Hd; assumption].
    intros x Hx. assert (H := refresh_in_to_out_body_uses x Hx).
    destruct (refresh_in_to_out_body_cases x)
      as [(d & t & a & b & ni & no & _ & _ & _ & _ & E)
         | [(e & d & E) | (d & ni & E)]];
      rewrite E in *; simpl; auto.
Qed.

End Controller.

(** * Further properties of the code *)

(** ** The text stream *)

Section Stream.
Variables Text V : Type.

Lemma firstn_plus (a b : nat) (d : list Text) :
  firstn (a + b) d = firstn a d ++ firstn b (skipn a d).
Proof.
  revert d; induction a as [|a IH]; intros [|x d]; simpl; auto.
  - rewrite firstn_nil. reflexivity.
  - rewrite IH. reflexivity.
Qed.

(** X1. Two calls of [text_batch], for [a] and then [b] texts, behave as
    one call for [a + b] texts: the same texts in the same order and the
    same source left when there are enough, the same StopIteration and an
    emptied source when there are not. *)
Theorem text_batch_adds (a b : Z) (s : ActivationBuffer Text V) :
  (0 <= a)%Z -> (0 <= b)%Z ->
  bind (text_batch (Some a))
    (fun x => bind (text_batch (Some b)) (fun y => ret (x ++ y))) s =
  text_batch (Some (a + b)%Z) s.
Proof.
  intros Ha Hb. unfold bind, ret, text_batch.
  rewrite !pull_spec, Z2Nat.inj_add by assumption.
  destruct (Nat.leb_spec (Z.to_nat a) (length (data s))) as [Hle|Hgt].
  - simpl. rewrite pull_spec, length_skipn.
    destruct (Nat.leb_spec (Z.to_nat b) (length (data s) - Z.to_nat a)),
             (Nat.leb_spec (Z.to_nat a + Z.to_nat b) (length (data s)));
      try lia.
    + rewrite firstn_plus, skipn_skipn, (Nat.add_comm (Z.to_nat b)).
      reflexivity.
    + reflexivity.
  - destruct (Nat.leb_spec (Z.to_nat a + Z.to_nat b) (length (data s)));
      [lia | reflexivity].
Qed.

(** X2. [text_batch] asked for no text, or for a negative number of them,
    returns the empty list and leaves the object as it is, also when the
    source has ended. *)
Theorem text_batch_nothing (batch_size : option Z)
    (s : ActivationBuffer Text V) :
  (match batch_size with None => in_batch_size s | Some z => z end <= 0)%Z ->
  text_batch batch_size s = Ok [] s.
Proof.
  intros H. unfold text_batch.
  replace (Z.to_nat _) with 0 by (destruct batch_size; lia).
  simpl. destruct s; reflexivity.
Qed.

(** X3. [text_batch] asked for more texts than the source still has raises
    the end of the stream and uses the source up: the texts that were left
    are gone, every later call for at least one text raises again, and
    buffers and flags are untouched. *)
Theorem text_batch_exhausts (batch_size : option Z)
    (s : ActivationBuffer Text V) :
  length (data s) <
    Z.to_nat (match batch_size with None => in_batch_size s | Some z => z end)
  ->
  text_batch batch_size s = Raise end_of_stream (set_data [] s) /\
  (forall m, (0 < m)%Z ->
     text_batch (Some m) (set_data [] s) =
     Raise end_of_stream (set_data [] s)).
Proof.
  intros H. split.
  - unfold text_batch. rewrite pull_spec.
    destruct (Nat.leb_spec
                (Z.to_nat match batch_size with
                          | None => in_batch_size s
                          | Some z => z
                          end) (length (data s))); [lia | reflexivity].
  - intros m Hm. unfold text_batch. rewrite pull_spec. simpl.
    destruct (Nat.leb_spec (Z.to_nat m) 0); [lia | reflexivity].
Qed.

(** X4. [tokenized_batch] tokenizes, with [ctx_len] as maximal length,
    exactly the texts [text_batch] would return and advances the source as
    far; when the source is short it raises the end of the stream without
    tokenizing anything. *)
Theorem tokenized_batch_pulls (Tokens : Type)
    (tokenizer : list Text -> Z -> Tokens) (batch_size : option Z)
    (s : ActivationBuffer Text V) :
  match text_batch batch_size s with
  | Ok texts s' =>
      tokenized_batch tokenizer batch_size s =
        Ok (tokenizer texts (ctx_len s)) s' /\
      exists n, texts = firstn n (data s) /\ s' = set_data (skipn n (data s)) s
  | Raise e s' =>
      tokenized_batch tokenizer batch_size s = Raise e s' /\
      e = end_of_stream /\ s' = set_data [] s
  | OutOfFuel => False
  end.
Proof.
  unfold tokenized_batch, bind, get, ret, text_batch. rewrite pull_spec.
  destruct (Nat.leb _ _); simpl; eauto.
Qed.

End Stream.

(** ** Selection under the attention mask *)

Section Mask.
Variable A : Type.

Lemma select_app (r x : list A) (m m' : list bool) :
  length m = length r ->
  select (r ++ x) (m ++ m') = select r m ++ select x m'.
Proof.
  revert m; induction r as [|a r IH]; intros [|b m] H; simpl in *;
    try discriminate; auto.
  injection H as H. rewrite (IH m H). destruct b; reflexivity.
Qed.

Lemma select_padding (r : list A) (m : list Z) :
  length m = length r ->
  length (select r (map (fun z => negb (z =? 0)%Z) m)) +
  length (filter (fun z => (z =? 0)%Z) m) = length r.
Proof.
  revert m; induction r as [|a r IH]; intros [|z m] H; simpl in *;
    try discriminate; auto.
  injection H as H. specialize (IH m H).
  destruct (z =? 0)%Z; simpl; lia.
Qed.

(** X5. [hidden_states[attention_mask != 0]] succeeds exactly when the mask
    has the shape of the first two dimensions of the tensor; it then keeps
    the vectors at the non-zero positions of the mask in row-major order,
    one vector for each position that is not padding. *)
Theorem mask_select_count (x : list (list A)) (mask : list (list Z)) :
  ((exists l, select2 x (ne0 mask) = Some l) <->
   map (@length A) x = map (@length Z) mask) /\
  (forall l, select2 x (ne0 mask) = Some l ->
     l = select (concat x) (concat (ne0 mask)) /\
     length l + length (filter (fun z => (z =? 0)%Z) (concat mask)) =
       length (concat x)).
Proof.
  revert mask; induction x as [|r x IH]; intros [|m mask]; simpl.
  - split; [split; eauto|]. intros l H. injection H as <-. auto.
  - split; [split; [intros [l H]|intros H]; discriminate|].
    intros l H; discriminate.
  - split; [split; [intros [l H]|intros H]; discriminate|].
    intros l H; discriminate.
  - destruct (IH mask) as [Hiff Hsel]. rewrite length_map.
    destruct (Nat.eqb_spec (length m) (length r)) as [E|E].
    + split.
      * split.
        -- intros [l H]. f_equal; [congruence|]. apply Hiff.
           destruct (select2 x (ne0 mask)) as [l'|]; [eauto|discriminate].
        -- intros H. injection H as _ H. apply Hiff in H.
           destruct H as [l' ->]. simpl. eauto.
      * intros l H.
        destruct (select2 x (ne0 mask)) as [l'|]; [|discriminate].
        injection H as <-. destruct (Hsel l' eq_refl) as [-> Hcount].
        rewrite select_app by (rewrite length_map; assumption).
        split; [reflexivity|].
        rewrite filter_app, !length_app.
        assert (Hrow := select_padding r m E). lia.
    + split; [split; [intros [l H]; discriminate|]|intros l H; discriminate].
      intros H. injection H as H _. congruence.
Qed.

End Mask.

(** ** Refilling and the text source *)

Section Source.
Variables Text V : Type.
Variable trace : list Text -> Z -> Traced V.





End Source.

(** ** Construction, again *)

Section Constructed.
Variables Text V : Type.



End Constructed.

(** ** What a gather of the unread positions gives *)

Section Gathered.
Variable A : Type.

Lemma take_nonzero_from (l pre : list A) (m : list bool) :
  length m = length l ->
  take (pre ++ l) (nonzero_from (length pre) m) = Some (select l m).
Proof.
  revert pre m; induction l as [|a l IH]; intros pre [|b m] H;
    simpl in *; try discriminate; auto.
  injection H as H.
  assert (Hrest : take (pre ++ a :: l) (nonzero_from (S (length pre)) m) =
                  Some (select l m)).
  { specialize (IH (pre ++ [a]) m H).
    rewrite <- app_assoc, length_app, Nat.add_1_r in IH. exact IH. }
  destruct b; [|exact Hrest].
  simpl. rewrite nth_error_app2, Nat.sub_diag by lia. simpl.
  rewrite Hrest. reflexivity.
Qed.

End Gathered.

(** ** Refills and calls *)

Section Calls.
Variables Text V : Type.
Variable trace : list Text -> Z -> Traced V.

(** X6. With an ingestion batch of at least one text and a text source of
    finite length, [refresh] and [__next__] come to an end: given more
    iterations than there are texts left, they return or raise. *)
Theorem next_returns_or_raises (fuel : nat) (randperm : nat -> list nat)
    (s : ActivationBuffer Text V) :
  consistent s ->
  (1 <= in_batch_size s)%Z ->
  length (data s) < fuel ->
  refresh trace fuel s <> OutOfFuel /\
  __next__ trace fuel randperm s <> OutOfFuel.
Proof.
  intros Hs Hb Hfuel.
  assert (Hr := refresh_total Text V trace fuel s Hs Hb Hfuel).
  split; [exact Hr|].
  unfold __next__, bind.
  destruct (refill_check trace fuel s) as [[] s1|e s1|] eqn:Hrc;
    [|discriminate|].
  - destruct (draw randperm s1) as [idxs s2|e s2|] eqn:Hd; [|discriminate|].
    + unfold modify, get, lift. simpl.
      destruct (io s2).
      * destruct (gather _ _); discriminate.
      * destruct (gather _ _); discriminate.
      * destruct (gather (activations_in s2) _); [|discriminate].
        destruct (gather (activations_out s2) _); discriminate.
    + unfold draw, bind, get, lift in Hd.
      destruct (len_index _); [|discriminate].
      destruct (index _ _); discriminate.
  - unfold refill_check, bind, get, lift in Hrc.
    destruct (int64 _); [|discriminate].
    destruct (Z.ltb _ _); [contradiction | discriminate].
Qed.

Lemma select_all (A : Type) (l : list A) (n : nat) :
  n = length l -> select l (invert (zeros n)) = l.
Proof.
  intros ->. unfold invert, zeros.
  induction l as [|a l IH]; simpl; [reflexivity|].
  rewrite IH. reflexivity.
Qed.

(** X8. A [refresh] that starts below the target and returns leaves a
    buffer at or above the target in which every vector is unread: the
    vectors that were unconsumed, in their order, followed by at least one
    new vector, under as many false flags, the configuration unchanged.
    A further [refresh] then changes nothing. *)
Theorem refresh_fills (fuel : nat) (s s' : ActivationBuffer Text V) :
  consistent s ->
  (Z.of_nat (unread s) < target s)%Z ->
  refresh trace fuel s = Ok tt s' ->
  consistent s' /\ same_config s s' /\
  read s' = zeros (len (buffer s')) /\
  unread s' = len (buffer s') /\
  (target s <= Z.of_nat (unread s'))%Z /\
  (exists new,
     new <> [] /\
     rows (buffer s') =
       select (rows (buffer s)) (invert (read s)) ++ new) /\
  (forall fuel', refresh trace fuel' s' = Ok tt s').
Proof.
  intros Hs Hlow Hr.
  assert (H := refresh_grown Text V trace (@any V) fuel s
                 (taps_related_any Text V trace) Hs).
  rewrite Hr in H. destruct H as [Hg Htarget].
  pose proof Hg as
    (Hc & _ & _ & _ & (n & ni & no & Hn & Hni & Hno & HR) & Hread).
  apply same_config_compact in Hc.
  destruct (same_config_levels Text V s s' Hc) as [_ Htg].
  pose proof Hc as (Hio & _).
  assert (Hclen := compact_len Text V s Hs).
  assert (Hzeros : read s' = zeros (len (buffer s'))).
  { destruct Hread as [(_ & Ha & Hi & Ho) | Hz]; [|assumption].
    exfalso.
    assert (Hb : buffer s' = buffer (compact s)).
    { unfold buffer. rewrite Hio, compact_io. destruct (io s); assumption. }
    rewrite Hb, Hclen, Htg in Htarget. lia. }
  assert (Hun : unread s' = len (buffer s')).
  { unfold unread. rewrite Hzeros at 1. apply sum_invert_zeros. }
  assert (Hrows : exists new,
             rows (buffer s') = rows (buffer (compact s)) ++ new).
  { unfold buffer. rewrite compact_io, Hio. destruct (io s); eauto. }
  destruct Hrows as [new Hrows].
  assert (Hcons : consistent s').
  { pose proof Hs as Hs'. unfold consistent in Hs' |- *. rewrite Hio.
    assert (Hl : length (read s') = len (buffer s')).
    { rewrite Hzeros at 1. unfold zeros. apply repeat_length. }
    unfold buffer in Hl. rewrite Hio in Hl.
    destruct (io s) eqn:E; try assumption.
    split; [assumption|]. rewrite Hl.
    unfold len. rewrite Hni, Hno, !length_app.
    rewrite (Forall2_length HR). f_equal.
    unfold compact; rewrite E; simpl.
    destruct Hs' as [Hi Ho].
    rewrite !select_length; unfold invert; rewrite ?length_map; auto. }
  split; [assumption|]. split; [assumption|]. split; [assumption|].
  split; [assumption|]. split; [rewrite Hun, <- Htg; assumption|]. split.
  - exists new. split.
    + intros ->. rewrite app_nil_r in Hrows.
      unfold len in Htarget, Hclen. rewrite Hrows, Hclen, Htg in Htarget.
      lia.
    + rewrite Hrows, compact_buffer. reflexivity.
  - intros fuel'.
    assert (Hfull : (target s' <= Z.of_nat (unread s'))%Z)
      by (rewrite Hun; assumption).
    destruct (refresh_at_target Text V trace fuel' s' Hcons Hfull)
      as (Hagain & _).
    rewrite Hagain. f_equal.
    pose proof Hcons as Hcons'. unfold consistent in Hcons'.
    unfold compact, keep_unread. unfold buffer in Hzeros.
    destruct (io s'); rewrite Hzeros, !select_all;
      try (unfold len in *; intuition congruence);
      destruct s' as [[] [] [] ? ? ? ? ? ? ?]; reflexivity.
Qed.

(** X9. A [refresh] of a buffer that is at its target and holds at least
    one consumed vector returns after the compaction alone: it reads no
    text, drops the consumed vectors and keeps every flag, so that the
    flags outnumber the vectors; every later [refresh] of that buffer
    raises IndexError and changes nothing. *)
Theorem refresh_at_target_stale (fuel : nat) (s : ActivationBuffer Text V) :
  consistent s ->
  (target s <= Z.of_nat (unread s))%Z ->
  unread s < length (read s) ->
  refresh trace fuel s = Ok tt (compact s) /\
  data (compact s) = data s /\
  read (compact s) = read s /\
  len (buffer (compact s)) < length (read (compact s)) /\
  (forall fuel',
     refresh trace fuel' (compact s) = Raise IndexError (compact s)).
Proof.
  intros Hs Hfull Hsome.
  destruct (refresh_at_target Text V trace fuel s Hs Hfull)
    as (Hr & Hread & Hlen).
  destruct (compact_fields Text V s) as (Hd & _ & Hio & _).
  split; [assumption|]. split; [assumption|]. split; [assumption|].
  split; [rewrite Hlen, Hread; assumption|].
  intros fuel'. unfold refresh, bind, get.
  unfold buffer in Hlen. rewrite Hio in Hlen |- *.
  destruct (io s).
  - rewrite refresh_std_unfold, Hread, Hlen.
    destruct (Nat.eqb_spec (length (read s)) (unread s)); [lia|reflexivity].
  - rewrite refresh_std_unfold, Hread, Hlen.
    destruct (Nat.eqb_spec (length (read s)) (unread s)); [lia|reflexivity].
  - rewrite refresh_in_to_out_unfold, Hread, Hlen.
    destruct (Nat.eqb_spec (length (read s)) (unread s)); [lia|reflexivity].
Qed.

End Calls.

(** ** Batches *)

Section Batches.
Variables Text V : Type.
Variable trace : list Text -> Z -> Traced V.

Lemma refresh_keeps_config (fuel : nat) (s s' : ActivationBuffer Text V) :
  state_of (refresh trace fuel s) = Some s' -> same_config s s'.
Proof.
  assert (Hsame : same_config s s) by (unfold same_config; tauto).
  unfold refresh, bind, get.
  destruct (io s) eqn:E.
  - rewrite refresh_std_unfold.
    destruct (Nat.eqb _ _); [|simpl; congruence].
    assert (H := std_loop_grown Text V trace (@any V) fuel
                   (set_activations
                      (keep_unread (read s) (activations s)) s)).
    simpl in H. rewrite E in H.
    destruct (while _ _ _ _) as [[] x|e x|]; simpl; intros Hx;
      try discriminate; injection Hx as <-;
      apply H; discriminate.
  - rewrite refresh_std_unfold.
    destruct (Nat.eqb _ _); [|simpl; congruence].
    assert (H := std_loop_grown Text V trace (@any V) fuel
                   (set_activations
                      (keep_unread (read s) (activations s)) s)).
    simpl in H. rewrite E in H.
    destruct (while _ _ _ _) as [[] x|e x|]; simpl; intros Hx;
      try discriminate; injection Hx as <-;
      apply H; discriminate.
  - rewrite refresh_in_to_out_unfold.
    destruct (Nat.eqb _ _); [|simpl; congruence].
    destruct (Nat.eqb _ _);
      [|simpl; intros Hx; injection Hx as <-; exact Hsame].
    assert (H := in_to_out_loop_grown Text V trace (@any V) fuel
                   (set_activations_out
                      (keep_unread (read s) (activations_out s))
                      (set_activations_in
                         (keep_unread (read s) (activations_in s)) s))
                   (taps_related_any Text V trace) E).
    destruct (while _ _ _ _) as [[] x|e x|]; simpl; intros Hx;
      try discriminate; injection Hx as <-.
    + apply H.
    + exact (proj1 H).
Qed.

Lemma gather_len (x y : Tensor V) (idxs : list nat) :
  gather x idxs = Some y -> len y = length idxs /\ feats y = feats x.
Proof.
  unfold gather. destruct (take (rows x) idxs) as [vs|] eqn:E;
    [|discriminate].
  simpl. intros H; injection H as <-. simpl. split; [|reflexivity].
  apply take_spec in E. symmetry. apply (Forall2_length E).
Qed.

(** X10. A batch that [__next__] returns never has more than
    [out_batch_size] vectors (for a batch size that is not negative),
    whatever [randperm] gives; it is one tensor in the single-tap modes and
    a pair of two tensors of equal length in dual-tap mode, of the widths
    of the buffers; and the call leaves the configuration as it was. *)
Theorem batch_is_bounded (fuel : nat) (randperm : nat -> list nat)
    (s s' : ActivationBuffer Text V) (b : Batch V) :
  (0 <= out_batch_size s)%Z ->
  __next__ trace fuel randperm s = Ok b s' ->
  same_config s s' /\
  match b with
  | Single x =>
      io s <> io_in_to_out /\
      (Z.of_nat (len x) <= out_batch_size s)%Z /\
      feats x = feats (activations s')
  | Pair x y =>
      io s = io_in_to_out /\
      (Z.of_nat (len x) <= out_batch_size s)%Z /\ len y = len x /\
      feats x = feats (activations_in s') /\
      feats y = feats (activations_out s')
  end.
Proof.
  intros Hobs Hnext. unfold __next__, bind in Hnext.
  destruct (refill_check trace fuel s) as [[] s1|e s1|] eqn:Hrc;
    try discriminate.
  assert (Hcfg : same_config s s1).
  { unfold refill_check, bind, get, lift in Hrc.
    destruct (int64 _); [|discriminate]. destruct (Z.ltb _ _).
    - apply (refresh_keeps_config fuel). rewrite Hrc. reflexivity.
    - injection Hrc as <-. unfold same_config; tauto. }
  destruct (draw randperm s1) as [idxs s2|e s2|] eqn:Hd; try discriminate.
  destruct (draw_state Text V _ _ _ _ Hd) as [-> _].
  assert (Hlen : (Z.of_nat (length idxs) <= out_batch_size s)%Z).
  { unfold draw, bind, get, lift in Hd.
    destruct (len_index _) as [n|]; [|discriminate].
    destruct (squeeze _) as [i|u]; [discriminate|]. simpl in Hd.
    destruct (take u _) as [l|] eqn:Et; [|discriminate].
    injection Hd as <-. apply take_spec in Et.
    rewrite <- (Forall2_length Et).
    destruct Hcfg as (_ & _ & _ & _ & ->).
    rewrite py_prefix_nonneg by assumption.
    assert (Hle := firstn_le_length (Z.to_nat (out_batch_size s))
                     (randperm n)).
    lia. }
  pose proof Hcfg as (Hio & _).
  unfold modify, get, lift in Hnext. simpl in Hnext.
  destruct (io s1) eqn:E.
  - destruct (gather _ _) as [x|] eqn:Ex; [|discriminate].
    injection Hnext as <- <-. destruct (gather_len _ _ _ Ex) as [Hl Hf].
    split; [exact Hcfg|].
    simpl. rewrite Hl. split; [congruence | auto].
  - destruct (gather _ _) as [x|] eqn:Ex; [|discriminate].
    injection Hnext as <- <-. destruct (gather_len _ _ _ Ex) as [Hl Hf].
    split; [exact Hcfg|].
    simpl. rewrite Hl. split; [congruence | auto].
  - destruct (gather (activations_in s1) _) as [x|] eqn:Ex; [|discriminate].
    destruct (gather (activations_out s1) _) as [y|] eqn:Ey; [|discriminate].
    injection Hnext as <- <-.
    destruct (gather_len _ _ _ Ex) as [Hl Hf].
    destruct (gather_len _ _ _ Ey) as [Hl' Hf'].
    split; [exact Hcfg|].
    simpl. rewrite Hl, Hl'. split; [congruence | auto].
Qed.

(** X11. A buffer with no unread vector whose target [n_ctxs * ctx_len] is
    below two, and not below [-2^64], never refills: its threshold is not
    above zero and fits 64 bits, so [__next__] skips the refill, returns an
    empty batch and leaves the object as it is, text source included; so
    does every call after it. *)
Theorem next_without_target (fuel : nat) (randperm : nat -> list nat)
    (s : ActivationBuffer Text V) :
  shuffles randperm ->
  (- 2 ^ 64 <= n_ctxs s * ctx_len s < 2)%Z ->
  unread s = 0 ->
  exists b,
    __next__ trace fuel randperm s = Ok b s /\
    match b with
    | Single x => rows x = []
    | Pair x y => rows x = [] /\ rows y = []
    end.
Proof.
  intros Hperm Htarget Hun.
  assert (Hhi : (threshold s < 1)%Z)
    by (unfold threshold; apply Z.div_lt_upper_bound; lia).
  assert (Hlo : (- 2 ^ 63 <= threshold s)%Z)
    by (unfold threshold; apply Z.div_le_lower_bound; lia).
  assert (Hth : (threshold s <= Z.of_nat (unread s))%Z) by lia.
  assert (Hfit : (- 2 ^ 63 <= threshold s < 2 ^ 63)%Z) by lia.
  assert (Hne : unread s <> 1) by lia.
  destruct (draw_spec Text V randperm s Hperm Hne)
    as (idxs & Hdraw & _ & Hidx & _).
  assert (idxs = []).
  { destruct idxs as [|i idxs]; [reflexivity|]. exfalso.
    assert (Hin : In i (nonzero (invert (read s))))
      by (apply nonzero_invert_In, Hidx; left; reflexivity).
    assert (Hl := unread_nonzero Text V s). rewrite Hun in Hl.
    destruct (nonzero (invert (read s))); [contradiction | discriminate]. }
  subst idxs.
  unfold __next__, bind.
  rewrite (refill_check_skip Text V trace fuel s Hfit Hth), Hdraw.
  unfold modify, get, lift, index_put. simpl.
  rewrite (set_read_same Text V s).
  destruct (io s); simpl; eexists; (split; [reflexivity|]); simpl; auto.
Qed.




(** X16. The vectors the compaction of [refresh] keeps are the vectors at
    the positions [__next__] draws from, [(~read).nonzero()], in the same
    order: the boolean mask and the list of its positions select the same
    rows. *)
Theorem compaction_is_gather (s : ActivationBuffer Text V) :
  consistent s ->
  gather (buffer s) (nonzero (invert (read s))) = Some (buffer (compact s)).
Proof.
  intros Hs. rewrite compact_buffer.
  assert (H := take_nonzero_from V (rows (buffer s)) [] (invert (read s))).
  simpl in H. unfold gather, nonzero, keep_unread.
  rewrite H.
  - reflexivity.
  - unfold invert. rewrite length_map.
    apply (consistent_buffer Text V s Hs).
Qed.

End Batches.

(** ** What the buffer sees of the model *)

Section Taps.
Variables Text V : Type.
Variables trace trace' : list Text -> Z -> Traced V.

Lemma while_ext (P : ActivationBuffer Text V -> Prop)
    (cond : ActivationBuffer Text V -> bool) (body body' : M Text V unit) :
  (forall x, P x -> body x = body' x) ->
  (forall x x', P x -> body x = Ok tt x' -> P x') ->
  forall fuel x, P x -> while cond body fuel x = while cond body' fuel x.
Proof.
  intros Heq Hkeep. induction fuel as [|fuel IH]; intros x Hx; simpl;
    [reflexivity|].
  destruct (cond x); [|reflexivity].
  unfold bind. rewrite <- (Heq x Hx).
  destruct (body x) as [[] x'|e x'|] eqn:E; try reflexivity.
  apply IH. apply (Hkeep x x' Hx E).
Qed.

(** X13. The buffer sees of a traced pass only the attention mask and, for
    each tap of its mode, the tensor reached by taking first components:
    two models that agree on these give the same [refresh] and the same
    [__next__], buffers, flags, text source and exceptions alike; the other
    components of a tuple and the tap of the other side are never read. *)
Theorem only_first_components (fuel : nat) (randperm : nat -> list nat)
    (s : ActivationBuffer Text V) :
  (forall texts n,
     attention_mask (trace texts n) = attention_mask (trace' texts n) /\
     (io s <> io_out ->
      unwrap (submodule_input (trace texts n)) =
      unwrap (submodule_input (trace' texts n))) /\
     (io s <> io_in ->
      unwrap (submodule_output (trace texts n)) =
      unwrap (submodule_output (trace' texts n)))) ->
  refresh trace fuel s = refresh trace' fuel s /\
  __next__ trace fuel randperm s = __next__ trace' fuel randperm s.
Proof.
  intros Hagree.
  assert (Hrefresh : refresh trace fuel s = refresh trace' fuel s).
  { unfold refresh, bind, get.
    destruct (io s) eqn:E.
    - rewrite !refresh_std_unfold. destruct (Nat.eqb _ _); [|reflexivity].
      apply (while_ext (fun x => io x = io_in)); [| |exact E].
      + intros x Hx. unfold refresh_std_body, bind, get, lift, modify.
        destruct (text_batch None x) as [texts x1|e x1|] eqn:Et;
          try reflexivity.
        assert (Hx1 : io x1 = io_in).
        { destruct (text_batch_cases Text V None x)
            as [(t & d & Ed) | (d & Ed)]; rewrite Ed in Et;
            [injection Et as _ <-; exact Hx | discriminate]. }
        rewrite Hx1.
        destruct (Hagree texts (ctx_len x1)) as (Hm & Hi & _).
        rewrite Hm, (Hi ltac:(congruence)). reflexivity.
      + intros x x' Hx Hb.
        destruct (refresh_std_body_cases Text V trace x)
          as [(d & new & Ed) | (e & d & Ed)]; rewrite Ed in Hb;
          [injection Hb as <-; exact Hx | discriminate].
    - rewrite !refresh_std_unfold. destruct (Nat.eqb _ _); [|reflexivity].
      apply (while_ext (fun x => io x = io_out)); [| |exact E].
      + intros x Hx. unfold refresh_std_body, bind, get, lift, modify.
        destruct (text_batch None x) as [texts x1|e x1|] eqn:Et;
          try reflexivity.
        assert (Hx1 : io x1 = io_out).
        { destruct (text_batch_cases Text V None x)
            as [(t & d & Ed) | (d & Ed)]; rewrite Ed in Et;
            [injection Et as _ <-; exact Hx | discriminate]. }
        rewrite Hx1.
        destruct (Hagree texts (ctx_len x1)) as (Hm & _ & Ho).
        rewrite Hm, (Ho ltac:(congruence)). reflexivity.
      + intros x x' Hx Hb.
        destruct (refresh_std_body_cases Text V trace x)
          as [(d & new & Ed) | (e & d & Ed)]; rewrite Ed in Hb;
          [injection Hb as <-; exact Hx | discriminate].
    - rewrite !refresh_in_to_out_unfold.
      destruct (Nat.eqb _ _); [|reflexivity].
      destruct (Nat.eqb _ _); [|reflexivity].
      apply (while_ext (fun _ => True)); [| |exact I].
      + intros x _.
        unfold refresh_in_to_out_body, bind, get, lift, modify.
        destruct (text_batch None x) as [texts x1|e x1|]; try reflexivity.
        destruct (Hagree texts (ctx_len x1)) as (Hm & Hi & Ho).
        rewrite Hm, (Hi ltac:(congruence)), (Ho ltac:(congruence)).
        reflexivity.
      + auto. }
  split; [exact Hrefresh|].
  assert (Hrc : refill_check trace fuel s = refill_check trace' fuel s).
  { unfold refill_check, bind, get, lift.
    destruct (int64 _); [|reflexivity].
    destruct (Z.ltb _ _); [exact Hrefresh | reflexivity]. }
  unfold __next__, bind. rewrite Hrc. reflexivity.
Qed.

End Taps.

(** ** The scenario *)

Import Scenario.

Lemma shuffles_ident : shuffles ident.
Proof. intros n. apply Permutation_refl. Defined.



Lemma fresh_consistent (io : IO) : consistent (fresh io).
Proof. destruct io; unfold consistent; simpl; auto. Defined.

(** The buffer the first refill of the scenario leaves. *)
Lemma first_refill (fuel : nat) :
  refill_check trace (S fuel) (fresh io_out) =
  Ok tt (after (refresh trace 1 (fresh io_out)) (fresh io_out)).
Proof.
  unfold refill_check, refresh, _refresh_std, bind, get, lift, modify.
  cbn -[while]. unfold while at 1; fold (@while Text V).
  cbn -[while]. apply while_done. reflexivity.
Qed.

(** C4, as the code has it.  With [n_ctxs=1], [ctx_len=4], [in_batch_size=2],
    [out_batch_size=2], [io='out'], width 8 and four texts of four tokens,
    the first [__next__] runs one refill, which ingests one batch of two
    texts and leaves 8 vectors in the buffer and two texts in the source;
    the call returns 2 vectors and leaves 6 unread. *)
Theorem first_batch_scenario (fuel : nat) (randperm : nat -> list nat) :
  shuffles randperm ->
  (Z.of_nat (unread (fresh io_out)) < threshold (fresh io_out))%Z /\
  exists s1 x s',
    refresh trace (S fuel) (fresh io_out) = Ok tt s1 /\
    len (activations s1) = 8 /\ data s1 = [2; 3] /\
    __next__ trace (S fuel) randperm (fresh io_out) = Ok (Single x) s' /\
    feats x = 8%Z /\ len x = 2 /\
    len (activations s') = 8 /\ unread s' = 6 /\ data s' = [2; 3].
Proof.
  intros Hperm.
  assert (Hlow : (Z.of_nat (unread (fresh io_out)) <
                  threshold (fresh io_out))%Z) by (vm_compute; reflexivity).
  split; [assumption|].
  set (s1 := after (refresh trace 1 (fresh io_out)) (fresh io_out)).
  assert (Hrc := first_refill fuel). fold s1 in Hrc.
  assert (Hne : unread s1 <> 1) by (vm_compute; discriminate).
  assert (Hs1 : consistent s1) by (vm_compute; reflexivity).
  destruct (draw_spec Text V randperm s1 Hperm Hne)
    as (idxs & Hdraw & Hnd & Hun & Hlen).
  destruct (next_after_draw Text V trace (S fuel) randperm (fresh io_out)
              s1 idxs Hrc Hdraw Hs1 Hun)
    as (b & Hnext & Hret).
  destruct Hret as (x & -> & Hfeats & Hrows).
  exists s1, x, (set_read (index_put (read s1) idxs) s1).
  assert (Hsum := unread_index_put Text V s1 idxs Hnd Hun).
  assert (Hlen2 : length idxs = 2) by (apply Hlen; vm_compute; discriminate).
  change (unread s1) with 8 in Hsum.
  split.
  - rewrite <- (refill_check_run Text V trace (S fuel) (fresh io_out)
                  (refill_check_Ok_fits Text V trace (S fuel) _ _ Hrc)
                  Hlow).
    exact Hrc.
  - split; [reflexivity|]. split; [reflexivity|].
    split; [assumption|]. split; [assumption|]. split.
    + unfold len. rewrite <- (Forall2_length Hrows). assumption.
    + split; [reflexivity|]. split; [lia | reflexivity].
Qed.

(** C4, as stated, fails: the scenario does not leave 16 vectors with 14
    unread. *)
Lemma first_batch_not_sixteen :
  ~ (exists x s',
       __next__ trace 5 ident (fresh io_out) = Ok (Single x) s' /\
       len (activations s') = 16 /\ len x = 2 /\ unread s' = 14).
Proof.
  intros (x & s' & H & H16 & _). vm_compute in H. injection H as _ <-.
  vm_compute in H16. discriminate.
Qed.

(** *** Calls that do not go as stated *)

(** C1, as stated, fails: over an empty text source the first [__next__]
    runs the refill, which raises the end of the stream; the call returns
    no batch. *)
Lemma next_exhausted_raises :
  __next__ trace 5 ident (start [] io_out 1 4 2 2) =
    Raise end_of_stream (start [] io_out 1 4 2 2) /\
  ~ (exists b s', __next__ trace 5 ident (start [] io_out 1 4 2 2) = Ok b s').
Proof.
  assert (H : __next__ trace 5 ident (start [] io_out 1 4 2 2) =
              Raise end_of_stream (start [] io_out 1 4 2 2))
    by (vm_compute; reflexivity).
  split; [exact H|]. intros (b & s' & H'). rewrite H in H'. discriminate.
Qed.


(** C5, as stated, fails: the fourth call of the scenario finds two unread
    vectors, the threshold; it does not refill, serves both and returns
    with none unread. *)
Lemma occupancy_below_threshold :
  exists b,
    __next__ trace 5 ident (served 3 (fresh io_out)) =
      Ok b (served 4 (fresh io_out)) /\
    (Z.of_nat (unread (served 4 (fresh io_out))) <
     threshold (served 4 (fresh io_out)))%Z.
Proof.
  eexists. split; [vm_compute; reflexivity | vm_compute; reflexivity].
Qed.

(** C7, as stated, fails: with one text left for an ingestion batch of two,
    a manual [refresh] of a buffer holding six unread vectors for a target
    of four returns; the loop is not entered and nothing is raised. *)
Lemma refresh_not_exhausted :
  (Z.of_nat (length (data (served 1 three_texts))) <
   in_batch_size (served 1 three_texts))%Z /\
  exists s',
    refresh trace 5 (served 1 three_texts) = Ok tt s' /\
    data s' = [2].
Proof.
  split; [vm_compute; reflexivity|].
  eexists. split; vm_compute; reflexivity.
Qed.

(** C6. After the first [__next__] of the scenario, a manual [refresh]
    compacts the buffer to its six unread vectors, finds the target of four
    met, and returns without touching the flags: eight flags for six
    vectors.  The flags of the first two kept vectors say consumed, and a
    further [refresh] raises IndexError on the mask.  Likewise the ninth
    [__next__], whose refill finds the text source empty, raises with the
    buffer compacted to no vector under eight flags. *)
Theorem refresh_leaves_stale_flags :
  consistent (served 1 (fresh io_out)) /\
  (exists s',
     refresh trace 5 (served 1 (fresh io_out)) = Ok tt s' /\
     length (read s') = 8 /\ len (activations s') = 6 /\
     read s' = [true; true; false; false; false; false; false; false] /\
     refresh trace 5 s' = Raise IndexError s') /\
  consistent (served 8 (fresh io_out)) /\
  (exists s',
     __next__ trace 5 ident (served 8 (fresh io_out)) =
       Raise end_of_stream s' /\
     length (read s') = 8 /\ len (activations s') = 0 /\
     __next__ trace 5 ident s' = Raise IndexError s').
Proof.
  split; [vm_compute; reflexivity|]. split.
  - eexists. split; [vm_compute; reflexivity|].
    repeat split; vm_compute; reflexivity.
  - split; [vm_compute; reflexivity|].
    eexists. split; [vm_compute; reflexivity|].
    repeat split; vm_compute; reflexivity.
Qed.

(** *** Instances *)

Lemma next_batch_contract_witness :
  consistent (fresh io_out) /\
  (0 <= out_batch_size (fresh io_out))%Z /\
  (- 2 ^ 63 <= threshold (fresh io_out) < 2 ^ 63)%Z /\
  unread (after (refresh trace 1 (fresh io_out)) (fresh io_out)) <> 1 /\
  exists idxs b s',
    __next__ trace 5 ident (fresh io_out) = Ok b s' /\
    NoDup idxs /\ length idxs = 2 /\ returns
      (after (refresh trace 1 (fresh io_out)) (fresh io_out)) idxs b.
Proof.
  assert (Hobs : (0 <= out_batch_size (fresh io_out))%Z)
    by (vm_compute; discriminate).
  assert (Hfit : (- 2 ^ 63 <= threshold (fresh io_out) < 2 ^ 63)%Z)
    by (vm_compute; split; [discriminate | reflexivity]).
  assert (Hne : unread (after (refresh trace 1 (fresh io_out))
                          (fresh io_out)) <> 1)
    by (vm_compute; discriminate).
  split; [apply fresh_consistent|]. split; [exact Hobs|].
  split; [exact Hfit|]. split; [exact Hne|].
  destruct (next_batch_contract Text V trace 5 ident (fresh io_out)
              (fresh_consistent io_out) shuffles_ident Hobs Hfit)
    as (_ & _ & _ & H).
  destruct (H (after (refresh trace 1 (fresh io_out)) (fresh io_out))
              (first_refill 4) Hne)
    as (idxs & b & Hnext & _ & Hnd & Hlen & _ & _ & Hret).
  exists idxs, b. eexists. split; [exact Hnext|].
  split; [exact Hnd|]. split; [exact Hlen | exact Hret].
Defined.

Lemma no_double_serving_witness :
  exists tr s',
    serves trace 5 (fresh io_out) [ident; ident] tr s' /\
    Forall (@flags_kept Text V) tr /\
    NoDup (concat (map (@drawn Text V) tr)).
Proof.
  assert (Hrun : serves trace 5 (fresh io_out) [ident; ident]
            [mkServed (fresh io_out) true
               (after (refresh trace 1 (fresh io_out)) (fresh io_out))
               [0; 1] (served 1 (fresh io_out));
             mkServed (served 1 (fresh io_out)) false
               (served 1 (fresh io_out))
               [2; 3] (served 2 (fresh io_out))]
            (served 2 (fresh io_out))).
  { eapply (@serves_cons Text V trace 5 (fresh io_out) ident [ident]
              (after (refresh trace 1 (fresh io_out)) (fresh io_out))
              [0; 1]);
      [vm_compute; reflexivity | vm_compute; reflexivity
      | vm_compute; reflexivity |].
    eapply (@serves_cons Text V trace 5 (served 1 (fresh io_out)) ident []
              (served 1 (fresh io_out)) [2; 3]);
      [vm_compute; reflexivity | vm_compute; reflexivity
      | vm_compute; reflexivity |].
    apply serves_nil. }
  destruct (no_double_serving Text V trace 5 (fresh io_out)
              (served 2 (fresh io_out)) [ident; ident] _
              (fresh_consistent io_out)
              (Forall_cons _ shuffles_ident
                 (Forall_cons _ shuffles_ident (Forall_nil _)))
              Hrun)
    as [Hkept Hdistinct].
  eexists. eexists. split; [exact Hrun|]. split; [exact Hkept|].
  apply (Hdistinct [] _ _ []); [reflexivity|].
  repeat constructor.
Defined.


Lemma occupancy_after_next_witness :
  consistent (fresh io_out) /\
  (threshold (fresh io_out) - out_batch_size (fresh io_out) <=
   Z.of_nat (unread (served 1 (fresh io_out))))%Z.
Proof.
  split; [apply fresh_consistent|].
  destruct (occupancy_after_next Text V trace 5 ident (fresh io_out)
              (served 1 (fresh io_out))
              (Single (mkTensor 8 [vec 1000 0 0; vec 1000 0 1]))
              (fresh_consistent io_out) shuffles_ident)
    as (s1 & _ & _ & _ & H);
    [vm_compute; discriminate | vm_compute; reflexivity | exact H].
Defined.

Lemma refresh_exhausted_witness :
  consistent (start [0] io_out 1 4 2 2) /\
  refresh trace 3 (start [0] io_out 1 4 2 2) =
    Raise end_of_stream (start [] io_out 1 4 2 2).
Proof.
  assert (Hs : consistent (start [0] io_out 1 4 2 2))
    by (vm_compute; reflexivity).
  split; [exact Hs|].
  destruct (refresh_exhausted Text V trace 2 (start [0] io_out 1 4 2 2) Hs)
    as (H & _); [vm_compute; reflexivity | vm_compute; reflexivity|].
  exact H.
Defined.

Lemma reset_equals_extend_witness :
  consistent (served 3 (fresh io_in_to_out)) /\
  exists x,
    refresh trace 5 (served 3 (fresh io_in_to_out)) = Ok tt x /\
    refresh_extend trace 5 (served 3 (fresh io_in_to_out)) = Ok tt x.
Proof.
  assert (Hs : consistent (served 3 (fresh io_in_to_out)))
    by (vm_compute; auto).
  split; [exact Hs|].
  destruct (reset_equals_extend Text V trace 5
              (served 3 (fresh io_in_to_out)) Hs) as [_ H].
  destruct (refresh trace 5 (served 3 (fresh io_in_to_out)))
    as [[] x|e x|] eqn:Hx; [|vm_compute in Hx; discriminate..].
  destruct (refresh_extend trace 5 (served 3 (fresh io_in_to_out)))
    as [[] y|e y|]; try contradiction.
  destruct H as [_ H]. exists x. split; [reflexivity|].
  rewrite <- H; [reflexivity | vm_compute; reflexivity].
Defined.

Lemma init_needs_feature_width_witness :
  exists msg,
    __init__ V [0; 1; 2; 3] bare None (Some 8%Z) io_in_to_out 1 4 2 2 =
    inl (ValueError msg).
Proof.
  apply (proj1 (init_needs_feature_width Text V [0; 1; 2; 3] bare None
                  (Some 8%Z) io_in_to_out 1 4 2 2)).
  left. split; [right; reflexivity | split; reflexivity].
Defined.

Lemma next_single_unread_raises_witness :
  unread (served 1 small) = 1 /\
  (threshold (served 1 small) <= 1)%Z /\
  __next__ trace 5 ident (served 1 small) = Raise TypeError (served 1 small).
Proof.
  assert (H1 : unread (served 1 small) = 1) by (vm_compute; reflexivity).
  assert (Ht : (threshold (served 1 small) <= 1)%Z)
    by (vm_compute; discriminate).
  split; [exact H1|]. split; [exact Ht|].
  destruct (next_single_unread_raises Text V trace 5 ident (served 1 small)
              H1 Ht) as (_ & _ & H).
  exact H.
Defined.

Lemma first_batch_scenario_witness :
  exists x s',
    __next__ trace 5 ident (fresh io_out) = Ok (Single x) s' /\
    len x = 2 /\ len (activations s') = 8 /\ unread s' = 6.
Proof.
  destruct (first_batch_scenario 4 ident shuffles_ident)
    as (_ & s1 & x & s' & _ & _ & _ & Hnext & _ & Hx & Hlen & Hun & _).
  exists x, s'. auto.
Defined.

(** *** Instances of the further properties *)

Lemma text_batch_adds_witness :
  bind (text_batch (Some 1%Z))
    (fun x => bind (text_batch (Some 2%Z)) (fun y => ret (x ++ y)))
    (fresh io_out) =
  Ok [0; 1; 2] (set_data [3] (fresh io_out)).
Proof.
  rewrite (text_batch_adds Text V 1 2 (fresh io_out)) by lia.
  reflexivity.
Defined.

Lemma text_batch_nothing_witness :
  text_batch (Some 0%Z) (fresh io_out) = Ok [] (fresh io_out).
Proof.
  apply (text_batch_nothing Text V (Some 0%Z) (fresh io_out)).
  simpl. lia.
Defined.

Lemma text_batch_exhausts_witness :
  text_batch (Some 5%Z) three_texts =
    Raise end_of_stream (set_data [] three_texts).
Proof.
  apply (text_batch_exhausts Text V (Some 5%Z) three_texts).
  vm_compute. lia.
Defined.

Lemma mask_select_count_witness :
  select2 [[1; 2; 3]; [4; 5; 6]] (ne0 [[1; 1; 0]; [1; 0; 0]]%Z) =
    Some [1; 2; 4] /\
  3 + 3 = 6.
Proof.
  split; [reflexivity|].
  apply (proj2 (mask_select_count nat [[1; 2; 3]; [4; 5; 6]]
                  [[1; 1; 0]; [1; 0; 0]]%Z) [1; 2; 4] eq_refl).
Defined.

Lemma next_returns_or_raises_witness :
  refresh trace 5 (fresh io_out) <> OutOfFuel /\
  __next__ trace 5 ident (fresh io_out) <> OutOfFuel.
Proof.
  apply (next_returns_or_raises Text V trace 5 ident (fresh io_out)
           (fresh_consistent io_out)).
  - vm_compute. discriminate.
  - vm_compute. lia.
Defined.


Lemma refresh_fills_witness :
  consistent (after (refresh trace 5 (fresh io_out)) (fresh io_out)) /\
  unread (after (refresh trace 5 (fresh io_out)) (fresh io_out)) = 8.
Proof.
  destruct (refresh_fills Text V trace 5 (fresh io_out)
              (after (refresh trace 5 (fresh io_out)) (fresh io_out))
              (fresh_consistent io_out))
    as (Hc & _ & _ & _ & _).
  - vm_compute. reflexivity.
  - vm_compute. reflexivity.
  - split; [exact Hc | vm_compute; reflexivity].
Defined.

Lemma refresh_at_target_stale_witness :
  refresh trace 5 (served 1 (fresh io_out)) =
    Ok tt (compact (served 1 (fresh io_out))) /\
  refresh trace 5 (compact (served 1 (fresh io_out))) =
    Raise IndexError (compact (served 1 (fresh io_out))).
Proof.
  destruct (refresh_at_target_stale Text V trace 5 (served 1 (fresh io_out)))
    as (H1 & _ & _ & _ & H2).
  - vm_compute. reflexivity.
  - vm_compute. discriminate.
  - vm_compute. lia.
  - split; [exact H1 | exact (H2 5)].
Defined.

Lemma batch_is_bounded_witness :
  same_config (fresh io_in_to_out) (served 1 (fresh io_in_to_out)) /\
  exists x y,
    __next__ trace 5 ident (fresh io_in_to_out) =
      Ok (Pair x y) (served 1 (fresh io_in_to_out)) /\
    len y = len x.
Proof.
  assert (Hn : __next__ trace 5 ident (fresh io_in_to_out) =
               Ok (Pair (mkTensor 8 [vec 0 0 0; vec 0 0 1])
                        (mkTensor 8 [vec 1000 0 0; vec 1000 0 1]))
                  (served 1 (fresh io_in_to_out)))
    by (vm_compute; reflexivity).
  destruct (batch_is_bounded Text V trace 5 ident (fresh io_in_to_out)
              _ _ ltac:(vm_compute; discriminate) Hn)
    as (Hc & _ & _ & Hl & _).
  split; [exact Hc|]. eexists. eexists. split; [exact Hn | exact Hl].
Defined.

Lemma next_without_target_witness :
  exists b, __next__ trace 5 ident untargeted = Ok b untargeted.
Proof.
  destruct (next_without_target Text V trace 5 ident untargeted
              shuffles_ident) as (b & H & _).
  - vm_compute. split; [discriminate | reflexivity].
  - vm_compute. reflexivity.
  - exists b. exact H.
Defined.


Lemma only_first_components_witness :
  __next__ trace 5 ident (fresh io_in_to_out) =
  __next__ trace_bare 5 ident (fresh io_in_to_out).
Proof.
  apply (only_first_components Text V trace trace_bare 5 ident
           (fresh io_in_to_out)).
  intros texts n. simpl. auto.
Defined.



Lemma compaction_is_gather_witness :
  gather (buffer (served 1 (fresh io_out)))
    (nonzero (invert (read (served 1 (fresh io_out))))) =
  Some (buffer (compact (served 1 (fresh io_out)))).
Proof.
  apply (compaction_is_gather Text V (served 1 (fresh io_out))).
  vm_compute. reflexivity.
Defined.
